(** * SecureScope: the scan simulator, the result view and the history rollups

    A shallow embedding of the logic of [SecurityScanner], [ScanResults] and
    [ScanHistory].  JavaScript numbers that the code only ever uses as
    integers are [Z]; the ones that are fractions ([Math.random()], the
    progress percentage, the scan duration) are exact rationals [Q]; arrays
    are lists; React state is a record threaded through a small state and
    exception monad. *)

From Stdlib Require Import ZArith QArith Qround String Ascii Lia.
From stdpp Require Import base tactics option list strings gmap pretty.

#[local] Open Scope string_scope.
#[local] Open Scope list_scope.
#[local] Open Scope Z_scope.

(** ** Data model *)

Inductive Severity := critical | high | medium | low.

#[global] Instance Severity_eq_dec : EqDecision Severity.
Proof. solve_decision. Defined.

(** [id] and [type] of the interface are [vuln_id] and [vuln_type] here. *)
Record Vulnerability := {
  vuln_id : string;
  vuln_type : string;
  severity : Severity;
  title : string;
  description : string;
  recommendation : string;
  details : option string
}.

(** [id] and [url] of the interface are [result_id] and [result_url] here;
    [timestamp] is the [Date] as milliseconds since the epoch. *)
Record ScanResult := {
  result_id : string;
  result_url : string;
  timestamp : Z;
  overallScore : Z;
  vulnerabilities : list Vulnerability;
  scanDuration : Q
}.

Definition MOCK_VULNERABILITIES : list Vulnerability := [
  {| vuln_id := "1";
     vuln_type := "SSL/TLS";
     severity := medium;
     title := "Weak SSL/TLS Configuration";
     description := "The website uses older TLS protocols that may be vulnerable.";
     recommendation := "Upgrade to TLS 1.3 and disable older protocols.";
     details := Some "TLS 1.0 and 1.1 detected. These versions have known security issues." |};
  {| vuln_id := "2";
     vuln_type := "Headers";
     severity := high;
     title := "Missing Security Headers";
     description := "Critical security headers are not implemented.";
     recommendation := "Implement Content-Security-Policy, X-Frame-Options, and HSTS headers.";
     details := Some "Missing: Content-Security-Policy, X-Frame-Options, Strict-Transport-Security" |};
  {| vuln_id := "3";
     vuln_type := "XSS";
     severity := critical;
     title := "Cross-Site Scripting Vulnerability";
     description := "Potential XSS vulnerability detected in user input fields.";
     recommendation := "Implement proper input validation and output encoding.";
     details := Some "Reflected XSS found in search parameter. Input: <script>alert(1)</script>" |}
].

(** ** The JavaScript built-ins the code calls *)

(** [Math.floor] and [Math.round] (nearest integer, a tie goes up). *)
Definition Math_floor (x : Q) : Z := Qfloor x.
Definition Math_round (x : Q) : Z := Qfloor (x + (1 # 2))%Q.

(** [arr.slice(0, end)]: a negative [end] counts from the end of the array,
    and the result never reaches past the array. *)
Definition Array_slice0 {A} (l : list A) (e : Z) : list A :=
  if e <? 0 then take (Z.to_nat (Z.max (Z.of_nat (length l) + e) 0)) l
  else take (Z.to_nat e) l.

(** [s.startsWith(p)]: the characters of [p] are the first ones of [s]. *)
Fixpoint startsWith (s p : string) {struct p} : bool :=
  match p, s with
  | EmptyString, _ => true
  | String _ _, EmptyString => false
  | String a p', String b s' => Ascii.eqb a b && startsWith s' p'
  end.

(** ** The sampler at the end of [simulateScan] *)

(** [Math.floor(Math.random() * 4) + 1], for [r] the value [Math.random()]
    returned. *)
Definition numVulns (r : Q) : Z := Math_floor (r * 4)%Q + 1.

Definition selectedVulns (r : Q) : list Vulnerability :=
  Array_slice0 MOCK_VULNERABILITIES (numVulns r).

(** [Math.max(10, 100 - (selectedVulns.length * 15))]. *)
Definition scoreOf (selected : list Vulnerability) : Z :=
  Z.max 10 (100 - Z.of_nat (length selected) * 15).

(** The object literal [simulateScan] returns: [r] is [Math.random()], [now]
    is [Date.now()] and [date] is [new Date()]. *)
Definition makeResult (url : string) (r : Q) (now date : Z) : ScanResult :=
  let selected := selectedVulns r in
  {| result_id := pretty now;
     result_url := url;
     timestamp := date;
     overallScore := scoreOf selected;
     vulnerabilities := selected;
     scanDuration := (48 # 10)%Q |}.

(** [Math.random()] returns a value in [0, 1). *)
Definition unit_interval (r : Q) : Prop := (0 <= r)%Q /\ (r < 1)%Q.

(** ** Faults, and the [URL] constructor of the platform *)

Inductive JsError := TypeError | RuntimeError (code : nat).

Inductive Completion (A : Type) := Normal (a : A) | Throw (e : JsError).
Arguments Normal {A} a.
Arguments Throw {A} e.

#[global] Instance Completion_ret : MRet Completion := fun A a => Normal a.
#[global] Instance Completion_bind : MBind Completion := fun A B f c =>
  match c with Normal a => f a | Throw e => Throw e end.

(** [try { c } catch { return h }] around a block that returns a value. *)
Definition catching {A} (c : Completion A) (h : JsError -> A) : A :=
  match c with Normal a => a | Throw e => h e end.

(** The part of a parsed URL the code reads. *)
Record URL := { protocol : string; hostname : string }.

(** [new Set(xs).size] for strings: [add] appends a value that is not yet
    in the set, in insertion order. *)
Definition Set_add (s : list string) (x : string) : list string :=
  if decide (x ∈ s) then s else s ++ [x].
Definition Set_new (xs : list string) : list string := foldl Set_add [] xs.
Definition Set_size (s : list string) : nat := length s.

(** ** The toasts and the component state *)

Inductive ToastVariant := variant_default | variant_destructive.

Record Toast := {
  toast_title : string;
  toast_description : string;
  toast_duration : option Z;
  toast_variant : option ToastVariant
}.

Inductive Tab := scanner | history.

(** The six [useState] cells of [SecurityScanner]. *)
Record State := {
  url : string;
  isScanning : bool;
  progress : Q;
  currentResult : option ScanResult;
  scanHistory : list ScanResult;
  activeTab : Tab
}.

(** The state and the toasts emitted so far, oldest first. *)
Record World := { state : State; toasts : list Toast }.

(** The places of [handleScan]'s [try] block (and of its handler) where the
    platform is called, so where a fault can be raised: the three calls of
    step [i], the three reads after the loop, the three calls that publish
    the result, and the toast of the [catch] handler. *)
Inductive CallSite :=
  | StepTimer (i : nat) | StepProgress (i : nat) | StepToast (i : nat)
  | CallRandom | CallDateNow | CallNewDate
  | PublishResult | PublishHistory | CompleteToast
  | FailedToast.

(** What the platform does during one run of [handleScan]. *)
Record Env := {
  random : Q;
  dateNow : Z;
  newDate : Z;
  fault : CallSite -> option JsError
}.

(** ** The monad of the event handlers: state, toasts and faults *)

Definition M (A : Type) : Type := World -> Completion A * World.

#[global] Instance M_ret : MRet M := fun A a w => (Normal a, w).
#[global] Instance M_bind : MBind M := fun A B f m w =>
  match m w with
  | (Normal a, w') => f a w'
  | (Throw e, w') => (Throw e, w')
  end.

Definition gets {A} (f : State -> A) : M A := fun w => (Normal (f (state w)), w).

Definition modify (f : State -> State) : M unit := fun w =>
  (Normal tt, {| state := f (state w); toasts := toasts w |}).

Definition toast (t : Toast) : M unit := fun w =>
  (Normal tt, {| state := state w; toasts := toasts w ++ [t] |}).

(** A platform call at [site]: the fault of [env] there, or the call. *)
Definition at_site {A} (env : Env) (site : CallSite) (m : M A) : M A := fun w =>
  match fault env site with
  | Some e => (Throw e, w)
  | None => m w
  end.

Definition try_catch {A} (m : M A) (h : JsError -> M A) : M A := fun w =>
  match m w with
  | (Normal a, w') => (Normal a, w')
  | (Throw e, w') => h e w'
  end.

(** [try { m } finally { f }]: [f] runs on every exit of [m]; a fault of
    [f] replaces the completion of [m]. *)
Definition try_finally {A} (m : M A) (f : M unit) : M A := fun w =>
  let '(c, w1) := m w in
  match f w1 with
  | (Normal _, w2) => (c, w2)
  | (Throw e, w2) => (Throw e, w2)
  end.

(** [for (let i = start; i < start + count; i++) body(i)]. *)
Fixpoint for_range (start count : nat) (body : nat -> M unit) : M unit :=
  match count with
  | O => mret tt
  | S count' => body start ;; for_range (S start) count' body
  end.

Definition setUrl (u : string) : M unit := modify (fun s =>
  {| url := u; isScanning := isScanning s; progress := progress s;
     currentResult := currentResult s; scanHistory := scanHistory s;
     activeTab := activeTab s |}).
Definition setIsScanning (b : bool) : M unit := modify (fun s =>
  {| url := url s; isScanning := b; progress := progress s;
     currentResult := currentResult s; scanHistory := scanHistory s;
     activeTab := activeTab s |}).
Definition setProgress (p : Q) : M unit := modify (fun s =>
  {| url := url s; isScanning := isScanning s; progress := p;
     currentResult := currentResult s; scanHistory := scanHistory s;
     activeTab := activeTab s |}).
Definition setCurrentResult (r : option ScanResult) : M unit := modify (fun s =>
  {| url := url s; isScanning := isScanning s; progress := progress s;
     currentResult := r; scanHistory := scanHistory s;
     activeTab := activeTab s |}).
(** The setter called with an updater function of the previous value. *)
Definition setScanHistory (f : list ScanResult -> list ScanResult) : M unit :=
  modify (fun s =>
  {| url := url s; isScanning := isScanning s; progress := progress s;
     currentResult := currentResult s; scanHistory := f (scanHistory s);
     activeTab := activeTab s |}).
Definition setActiveTab (t : Tab) : M unit := modify (fun s =>
  {| url := url s; isScanning := isScanning s; progress := progress s;
     currentResult := currentResult s; scanHistory := scanHistory s;
     activeTab := t |}).

(** ** [simulateScan] *)

Definition steps : list string := [
  "Checking SSL certificate...";
  "Analyzing security headers...";
  "Testing for XSS vulnerabilities...";
  "Scanning for SQL injection...";
  "Checking open ports...";
  "Generating report..."
].

(** [((i + 1) / steps.length) * 100]. *)
Definition progressAt (i : nat) : Q :=
  (inject_Z (Z.of_nat i + 1) / inject_Z (Z.of_nat (length steps)) * 100)%Q.

Definition scanningToast (i : nat) : Toast :=
  {| toast_title := "Scanning...";
     toast_description := default "" (steps !! i);
     toast_duration := Some 800;
     toast_variant := None |}.

(** One turn of the loop: the awaited 800 ms timer, [setProgress], [toast]. *)
Definition step (env : Env) (i : nat) : M unit :=
  at_site env (StepTimer i) (mret tt) ;;
  at_site env (StepProgress i) (setProgress (progressAt i)) ;;
  at_site env (StepToast i) (toast (scanningToast i)).

Definition simulateScan (env : Env) (url : string) : M ScanResult :=
  for_range 0 (length steps) (step env) ;;
  r ← at_site env CallRandom (mret (random env)) ;
  now ← at_site env CallDateNow (mret (dateNow env)) ;
  date ← at_site env CallNewDate (mret (newDate env)) ;
  mret (makeResult url r now date).

(** ** [handleScan] and the other actions *)

(** The updater of the history: [prev => [result, ...prev.slice(0, 9)]]. *)
Definition pushHistory (result : ScanResult) (prev : list ScanResult)
  : list ScanResult := result :: Array_slice0 prev 9.

Definition invalidUrlToast : Toast :=
  {| toast_title := "Invalid URL";
     toast_description := "Please enter a valid HTTP or HTTPS URL.";
     toast_duration := None;
     toast_variant := Some variant_destructive |}.

Definition hasCritical (r : ScanResult) : bool :=
  existsb (fun v => bool_decide (severity v = critical)) (vulnerabilities r).

Definition scanCompleteToast (r : ScanResult) : Toast :=
  {| toast_title := "Scan Complete";
     toast_description :=
       "Found " +:+ pretty (length (vulnerabilities r)) +:+ " potential issues.";
     toast_duration := None;
     toast_variant :=
       Some (if hasCritical r then variant_destructive else variant_default) |}.

Definition scanFailedToast : Toast :=
  {| toast_title := "Scan Failed";
     toast_description := "An error occurred during the security scan.";
     toast_duration := None;
     toast_variant := Some variant_destructive |}.

Section Platform.

(** The URL parser of the platform: [None] is its failure. *)
Variable parseURL : string -> option URL.

(** [new URL(s)] throws a [TypeError] when the parser fails. *)
Definition URL_new (s : string) : Completion URL :=
  match parseURL s with
  | Some u => Normal u
  | None => Throw TypeError
  end.

Definition validateUrl (url : string) : bool :=
  catching
    (URL_new url ;;
     mret (startsWith url "http://" || startsWith url "https://"))
    (fun _ => false).

(** The body of the [try] block of [handleScan]. *)
Definition scanAndPublish (env : Env) (url : string) : M unit :=
  result ← simulateScan env url ;
  at_site env PublishResult (setCurrentResult (Some result)) ;;
  at_site env PublishHistory (setScanHistory (pushHistory result)) ;;
  at_site env CompleteToast (toast (scanCompleteToast result)).

Definition handleScan (env : Env) : M unit :=
  url ← gets url ;
  if negb (validateUrl url) then toast invalidUrlToast
  else
    setIsScanning true ;;
    setProgress 0 ;;
    setCurrentResult None ;;
    try_finally
      (try_catch (scanAndPublish env url)
                 (fun _ => at_site env FailedToast (toast scanFailedToast)))
      (setIsScanning false).

(** ** The rollups of [ScanHistory] and of the quick stats *)

Definition countSeverity (s : Severity) (vs : list Vulnerability) : nat :=
  length (filter (fun v => severity v = s) vs).

(** [history.reduce((acc, scan) => acc + scan.vulnerabilities.filter(..).length, 0)]. *)
Definition totalSeverity (s : Severity) (h : list ScanResult) : nat :=
  foldl (fun acc scan => (acc + countSeverity s (vulnerabilities scan))%nat) 0%nat h.

(** [Math.round(history.reduce((acc, scan) => acc + scan.overallScore, 0) / history.length)]. *)
Definition sumScores (h : list ScanResult) : Z :=
  foldl (fun acc scan => acc + overallScore scan) 0 h.
Definition avgScore (h : list ScanResult) : Z :=
  Math_round (inject_Z (sumScores h) / inject_Z (Z.of_nat (length h)))%Q.

(** [history.map(scan => new URL(scan.url).hostname)]. *)
Definition hostnames (h : list ScanResult) : Completion (list string) :=
  mapM (fun scan => u ← URL_new (result_url scan) ; mret (hostname u)) h.

(** [new Set(history.map(..)).size]. *)
Definition uniqueSites (h : list ScanResult) : Completion nat :=
  hosts ← hostnames h ; mret (Set_size (Set_new hosts)).

End Platform.

(** ** The advisories of [ScanResults] *)

Definition criticalCount (r : ScanResult) : nat := countSeverity critical (vulnerabilities r).
Definition highCount (r : ScanResult) : nat := countSeverity high (vulnerabilities r).
Definition mediumCount (r : ScanResult) : nat := countSeverity medium (vulnerabilities r).
Definition lowCount (r : ScanResult) : nat := countSeverity low (vulnerabilities r).

Inductive Advisory :=
  | ImmediateAction (count : nat)
  | HighPriority (count : nat)
  | GoodPosture.

(** The three [cond && <div>..</div>] of the Next Steps card, in order. *)
Definition nextSteps (r : ScanResult) : list Advisory :=
  (if (0 <? criticalCount r)%nat then [ImmediateAction (criticalCount r)] else [])
  ++ (if (0 <? highCount r)%nat then [HighPriority (highCount r)] else [])
  ++ (if 80 <=? overallScore r then [GoodPosture] else []).

Definition advisoryHeading (a : Advisory) : string :=
  match a with
  | ImmediateAction _ => "Immediate Action Required"
  | HighPriority _ => "High Priority"
  | GoodPosture => "Good Security Posture"
  end.

Definition advisoryText (a : Advisory) : string :=
  match a with
  | ImmediateAction n =>
      "Address " +:+ pretty n +:+ " critical "
      +:+ (if (n =? 1)%nat then "vulnerability" else "vulnerabilities")
      +:+ " immediately to prevent potential security breaches."
  | HighPriority n =>
      "Fix " +:+ pretty n +:+ " high-severity "
      +:+ (if (n =? 1)%nat then "issue" else "issues")
      +:+ " within the next week."
  | GoodPosture =>
      "Your website has strong security measures. Continue monitoring and maintaining best practices."
  end.

(** [onClearHistory] and [onSelectScan] as [SecurityScanner] passes them. *)
Definition clearHistory : M unit := setScanHistory (fun _ => []).
Definition selectScan (r : ScanResult) : M unit := setCurrentResult (Some r).

(** ** A small instance of the platform, to run the model on

    The code never sees the parser of the platform, only its verdict.  This
    parser accepts [scheme://host] followed by a path, a query or a
    fragment, which is enough to run the handlers on concrete addresses. *)

Definition isSchemeChar (c : ascii) : bool :=
  let n := nat_of_ascii c in
  ((65 <=? n) && (n <=? 90) || (97 <=? n) && (n <=? 122)
   || (48 <=? n) && (n <=? 57) || (n =? 43) || (n =? 45) || (n =? 46))%nat.

Fixpoint splitScheme (s : string) : option (string * string) :=
  match s with
  | EmptyString => None
  | String c rest =>
      if Ascii.eqb c ":" then Some (EmptyString, rest)
      else if isSchemeChar c then
        match splitScheme rest with
        | Some (scheme, tl) => Some (String c scheme, tl)
        | None => None
        end
      else None
  end.

Fixpoint hostOf (s : string) : string :=
  match s with
  | EmptyString => EmptyString
  | String c rest =>
      if Ascii.eqb c "/" || Ascii.eqb c "?" || Ascii.eqb c "#" then EmptyString
      else String c (hostOf rest)
  end.

Definition sampleParseURL (s : string) : option URL :=
  match splitScheme s with
  | Some (String c scheme, String "/" (String "/" rest)) =>
      match hostOf rest with
      | EmptyString => None
      | host => Some {| protocol := String c scheme +:+ ":"; hostname := host |}
      end
  | _ => None
  end.

Definition quietEnv (r : Q) : Env :=
  {| random := r; dateNow := 1700000000000; newDate := 1700000000001;
     fault := fun _ => None |}.

Definition faultyEnv (r : Q) (site : CallSite) : Env :=
  {| random := r; dateNow := 1700000000000; newDate := 1700000000001;
     fault := fun s =>
       match s, site with
       | StepToast i, StepToast j => if (i =? j)%nat then Some (RuntimeError 1) else None
       | CallRandom, CallRandom => Some (RuntimeError 1)
       | _, _ => None
       end |}.

Definition initialState (u : string) : State :=
  {| url := u; isScanning := false; progress := 0; currentResult := None;
     scanHistory := []; activeTab := scanner |}.

Definition initialWorld (u : string) : World :=
  {| state := initialState u; toasts := [] |}.

(** Scan results told apart by their clock reads, and a full history of
    ten of them, newest first. *)
Definition sampleResult (k : Z) : ScanResult :=
  makeResult "https://example.com" (1 # 4) k k.

Definition sampleHistory : list ScanResult :=
  sampleResult <$> [10; 9; 8; 7; 6; 5; 4; 3; 2; 1].

(** Two scans of one site, with scores 85 and 70. *)
Definition twoScansOfOneSite : list ScanResult :=
  [ makeResult "https://a.com/x" (1 # 8) 1 1;
    makeResult "https://a.com/y" (3 # 8) 2 2 ].

(** A result record with the given score and severities, for the views. *)
Definition resultWith (score : Z) (sevs : list Severity) : ScanResult :=
  {| result_id := "0"; result_url := "https://example.com"; timestamp := 0;
     overallScore := score;
     vulnerabilities :=
       (fun s => {| vuln_id := "0"; vuln_type := "Sample"; severity := s;
                    title := "Sample"; description := "Sample";
                    recommendation := "Sample"; details := None |}) <$> sevs;
     scanDuration := (48 # 10)%Q |}.

(** ** Vocabulary of the statements *)

(** The call sites of the loop turns [a .. a + n - 1], of [simulateScan]
    and of the whole [try] block, in the order they are reached. *)
Definition stepSites (i : nat) : list CallSite :=
  [StepTimer i; StepProgress i; StepToast i].
Definition loopSites (a n : nat) : list CallSite :=
  flat_map stepSites (seq a n).
Definition scanSites : list CallSite :=
  loopSites 0 (length steps) ++ [CallRandom; CallDateNow; CallNewDate].
Definition trySites : list CallSite :=
  scanSites ++ [PublishResult; PublishHistory; CompleteToast].

(** No fault is raised at any of [sites]. *)
Definition quiet (env : Env) (sites : list CallSite) : Prop :=
  Forall (fun s => fault env s = None) sites.

(** What the loop leaves alone: everything but the progress and the toasts. *)
Definition sameResults (w w' : World) : Prop :=
  url (state w') = url (state w)
  /\ isScanning (state w') = isScanning (state w)
  /\ currentResult (state w') = currentResult (state w)
  /\ scanHistory (state w') = scanHistory (state w)
  /\ activeTab (state w') = activeTab (state w).

(** A run either completes, and then no site it went through faulted, or
    throws, and then one of them did. *)
Definition outcome {A} (env : Env) (sites : list CallSite) (c : Completion A)
    (a : A) : Prop :=
  (c = Normal a /\ quiet env sites)
  \/ ((exists e, c = Throw e) /\ ~ quiet env sites).

(** The sum of the scores, as a sum over the list. *)
Definition totalScore (h : list ScanResult) : Z :=
  foldr Z.add 0 (overallScore <$> h).

(** The sample of a completed scan for the value [r] of [Math.random()]. *)
Definition completedScan (r : Q) (res : ScanResult) : Prop :=
  exists url now date, res = makeResult url r now date.

(** ** The helpers of the two views *)

(** [getSeverityColor] of [ScanResults]; the [default] branch of its switch
    is out of reach of the four severities. *)
Definition getSeverityColor (s : Severity) : string :=
  match s with
  | critical => "bg-critical text-critical-foreground"
  | high => "bg-high text-high-foreground"
  | medium => "bg-medium text-medium-foreground"
  | low => "bg-low text-low-foreground"
  end.

Inductive Icon := XCircle | AlertTriangle | CheckCircle.

Definition getSeverityIcon (s : Severity) : Icon :=
  match s with
  | critical => XCircle
  | high => AlertTriangle
  | medium => AlertTriangle
  | low => CheckCircle
  end.

(** [getScoreColor], the same text in [ScanResults] and in [ScanHistory]. *)
Definition getScoreColor (score : Z) : string :=
  if 80 <=? score then "text-success"
  else if 60 <=? score then "text-medium"
  else if 40 <=? score then "text-high"
  else "text-critical".

Inductive BadgeVariant :=
  badge_default | badge_secondary | badge_destructive | badge_outline.

Definition getScoreBadgeVariant (score : Z) : BadgeVariant :=
  if 80 <=? score then badge_default
  else if 60 <=? score then badge_secondary
  else if 40 <=? score then badge_outline
  else badge_destructive.

(** The updater of [toggleItem]:
    [prev.includes(id) ? prev.filter(item => item !== id) : [...prev, id]]. *)
Definition toggleItem (id : string) (prev : list string) : list string :=
  if bool_decide (id ∈ prev) then filter (fun item => item <> id) prev
  else prev ++ [id].

Definition getTotalVulnerabilities (scan : ScanResult) : nat :=
  length (vulnerabilities scan).

Definition getCriticalCount (scan : ScanResult) : nat :=
  length (filter (fun v => severity v = critical) (vulnerabilities scan)).

(** The row of [scan] is highlighted when [selectedScan?.id === scan.id]. *)
Definition rowHighlighted (selectedScan : option ScanResult) (scan : ScanResult)
  : bool :=
  match selectedScan with
  | Some s => String.eqb (result_id s) (result_id scan)
  | None => false
  end.

(** [handleViewScan]: the local [selectedScan] of [ScanHistory] paired with
    the world of [SecurityScanner], whose [setCurrentResult] is
    [onSelectScan]. *)
Definition handleViewScan (scan : ScanResult)
    (view : option ScanResult * World) : option ScanResult * World :=
  (Some scan, (selectScan scan view.2).2).

(** The Start Scan button is [disabled={isScanning || !url}]. *)
Definition startDisabled (s : State) : bool :=
  isScanning s || String.eqb (url s) "".

Section Locale.

(** [date.toLocaleDateString()], which depends on the locale of the
    platform. *)
Variable toLocaleDateString : Z -> string.

(** [formatRelativeTime], for [now] the [new Date()] it reads; both dates
    are milliseconds since the epoch. *)
Definition formatRelativeTime (now date : Z) : string :=
  let diffInMinutes := (now - date) / (1000 * 60) in
  if diffInMinutes <? 1 then "Just now"
  else if diffInMinutes <? 60 then pretty diffInMinutes +:+ "m ago"
  else
    let diffInHours := diffInMinutes / 60 in
    if diffInHours <? 24 then pretty diffInHours +:+ "h ago"
    else
      let diffInDays := diffInHours / 24 in
      if diffInDays <? 7 then pretty diffInDays +:+ "d ago"
      else toLocaleDateString date.

End Locale.

(** ** Vocabulary of the further statements *)

(** One click on Start Scan per environment, each after the previous run
    has finished. *)
Fixpoint clickScans (parseURL : string -> option URL) (envs : list Env)
    (w : World) : World :=
  match envs with
  | [] => w
  | env :: rest => clickScans parseURL rest (handleScan parseURL env w).2
  end.

(** The state with another progress value. *)
Definition withProgress (p : Q) (s : State) : State :=
  {| url := url s; isScanning := isScanning s; progress := p;
     currentResult := currentResult s; scanHistory := scanHistory s;
     activeTab := activeTab s |}.

(** The state in which a scan was started and is over. *)
Definition scanEnded (p : Q) (r : option ScanResult) (h : list ScanResult)
    (s : State) : State :=
  {| url := url s; isScanning := false; progress := p;
     currentResult := r; scanHistory := h; activeTab := activeTab s |}.

(** The result of the scan that [env] lets run on the address [u]. *)
Definition resultOf (u : string) (env : Env) : ScanResult :=
  makeResult u (random env) (dateNow env) (newDate env).

(** A locale that prints the milliseconds. *)
Definition sampleLocale (date : Z) : string := "date " +:+ pretty date.

(** What holds of every result the trigger stores: its address parsed,
    its vulnerabilities are a non-empty slice of the catalog, and its score
    is the one of their number. *)
Definition storedByTrigger (parseURL : string -> option URL) (scan : ScanResult)
  : Prop :=
  is_Some (parseURL (result_url scan))
  /\ vulnerabilities scan `prefix_of` MOCK_VULNERABILITIES
  /\ vulnerabilities scan <> []
  /\ overallScore scan = scoreOf (vulnerabilities scan).

(** * Properties *)

(** ** The sampler *)

Lemma numVulns_range r : unit_interval r -> 1 <= numVulns r <= 4.
Proof.
  intros [Hlo Hhi]. unfold numVulns, Math_floor.
  assert (H0 : 0 <= Qfloor (r * 4)%Q).
  { change 0 with (Qfloor 0). apply Qfloor_resp_le.
    apply Qmult_le_0_compat; [exact Hlo | discriminate]. }
  assert (H4 : Qfloor (r * 4)%Q < 4).
  { rewrite Zlt_Qlt. eapply Qle_lt_trans; [apply Qfloor_le|].
    change (inject_Z 4) with (1 * 4)%Q.
    apply Qmult_lt_compat_r; [reflexivity | exact Hhi]. }
  lia.
Qed.

Lemma Array_slice0_nonneg {A} (l : list A) (e : Z) :
  0 <= e -> Array_slice0 l e = take (Z.to_nat e) l.
Proof.
  intros He. unfold Array_slice0.
  destruct (Z.ltb_spec e 0); [lia | reflexivity].
Qed.

Lemma selectedVulns_take r :
  unit_interval r ->
  selectedVulns r = take (Z.to_nat (numVulns r)) MOCK_VULNERABILITIES.
Proof.
  intros Hr. apply Array_slice0_nonneg.
  pose proof (numVulns_range r Hr). lia.
Qed.

Lemma selectedVulns_length r :
  unit_interval r ->
  Z.of_nat (length (selectedVulns r)) = Z.min (numVulns r) 3.
Proof.
  intros Hr. rewrite (selectedVulns_take r Hr), length_take.
  pose proof (numVulns_range r Hr).
  change (length MOCK_VULNERABILITIES) with 3%nat. lia.
Qed.

Lemma scoreOf_antitone (vs vs' : list Vulnerability) :
  (length vs <= length vs')%nat -> scoreOf vs' <= scoreOf vs.
Proof. unfold scoreOf. lia. Qed.

Lemma scoreOf_floor (vs : list Vulnerability) : 10 <= scoreOf vs.
Proof. unfold scoreOf. lia. Qed.

(** ** Running the handlers *)

Lemma sameResults_refl w : sameResults w w.
Proof. repeat split. Qed.

Lemma sameResults_trans w1 w2 w3 :
  sameResults w1 w2 -> sameResults w2 w3 -> sameResults w1 w3.
Proof.
  unfold sameResults. intros (?&?&?&?&?) (?&?&?&?&?).
  repeat split; congruence.
Qed.

Lemma quiet_cons env s sites :
  quiet env (s :: sites) <-> fault env s = None /\ quiet env sites.
Proof. unfold quiet. by rewrite Forall_cons. Qed.

Lemma quiet_app env sites1 sites2 :
  quiet env (sites1 ++ sites2) <-> quiet env sites1 /\ quiet env sites2.
Proof. unfold quiet. by rewrite Forall_app. Qed.

Lemma quiet_nil env : quiet env [].
Proof. constructor. Qed.

Lemma bind_run {A B} (m : M A) (k : A -> M B) (w : World) :
  (m ≫= k) w =
  match m w with
  | (Normal a, w') => k a w'
  | (Throw e, w') => (Throw e, w')
  end.
Proof. reflexivity. Qed.

(** Closes [~ quiet env (.. :: s :: ..)] from a fault recorded at [s], and
    [quiet env [..]] from the sites recorded as silent. *)
Ltac quiet_tac :=
  lazymatch goal with
  | |- ~ quiet _ _ =>
      let H := fresh in
      intros H; repeat (apply quiet_cons in H; destruct H as [? H]); congruence
  | |- quiet _ _ =>
      repeat (apply quiet_cons; split; [assumption|]); apply quiet_nil
  end.

(** The same for a fault in the tail of [sites ++ [..]]. *)
Ltac not_quiet_tail :=
  let H := fresh in
  intros H; apply quiet_app in H; destruct H as [_ H];
  repeat (apply quiet_cons in H; destruct H as [? H]); congruence.

Lemma step_run env i w :
  sameResults w (step env i w).2
  /\ outcome env (stepSites i) (step env i w).1 tt.
Proof.
  unfold step, at_site, outcome, stepSites, mbind, M_bind, mret, M_ret.
  destruct (fault env (StepTimer i)) as [e|] eqn:E1; simpl.
  { split; [apply sameResults_refl | right; split; [eauto | quiet_tac]]. }
  destruct (fault env (StepProgress i)) as [e|] eqn:E2; simpl.
  { split; [apply sameResults_refl | right; split; [eauto | quiet_tac]]. }
  destruct (fault env (StepToast i)) as [e|] eqn:E3; simpl.
  { split; [repeat split | right; split; [eauto | quiet_tac]]. }
  split; [repeat split | left; split; [reflexivity | quiet_tac]].
Qed.

Lemma for_range_run env n : forall a w,
  sameResults w (for_range a n (step env) w).2
  /\ outcome env (loopSites a n) (for_range a n (step env) w).1 tt.
Proof.
  induction n as [|n IH]; intros a w.
  - split; [apply sameResults_refl | left; split; [reflexivity | apply quiet_nil]].
  - change (loopSites a (S n)) with (stepSites a ++ loopSites (S a) n).
    cbn [for_range]. rewrite bind_run.
    destruct (step_run env a w) as [Hs Ho].
    destruct (step env a w) as [[[]|e] w1]; simpl in Hs, Ho.
    + destruct (IH (S a) w1) as [Hs' Ho'].
      split; [eapply sameResults_trans; eassumption|].
      destruct Ho as [[_ Hq]|[[e ?] _]]; [|discriminate].
      destruct Ho' as [[Hc Hq']|[He Hq']]; [left|right]; (split; [assumption|]).
      * apply quiet_app; split; assumption.
      * intros Hq''. apply quiet_app in Hq'' as [_ ?]. contradiction.
    + split; [exact Hs|]. right. split; [eauto|].
      destruct Ho as [[? _]|[_ Hq]]; [discriminate|].
      intros Hq'. apply quiet_app in Hq' as [? _]. contradiction.
Qed.

Lemma at_site_run {A} env site (m : M A) w :
  at_site env site m w =
  match fault env site with Some e => (Throw e, w) | None => m w end.
Proof. reflexivity. Qed.

Lemma simulateScan_run env u w :
  sameResults w (simulateScan env u w).2
  /\ outcome env scanSites (simulateScan env u w).1
       (makeResult u (random env) (dateNow env) (newDate env)).
Proof.
  unfold simulateScan, scanSites. rewrite bind_run.
  destruct (for_range_run env (length steps) 0 w) as [Hs Ho].
  revert Ho. generalize (loopSites 0 (length steps)). intros L Ho.
  unfold outcome in *.
  destruct (for_range 0 (length steps) (step env) w) as [[[]|e] w1];
    simpl in Hs, Ho.
  - destruct Ho as [[_ Hq]|[[e ?] _]]; [|discriminate].
    rewrite !bind_run, !at_site_run.
    destruct (fault env CallRandom) as [e|] eqn:E1; simpl.
    { split; [exact Hs|]. right. split; [eauto|].
      not_quiet_tail. }
    rewrite !bind_run, !at_site_run.
    destruct (fault env CallDateNow) as [e|] eqn:E2; simpl.
    { split; [exact Hs|]. right. split; [eauto|].
      not_quiet_tail. }
    rewrite !bind_run, !at_site_run.
    destruct (fault env CallNewDate) as [e|] eqn:E3; simpl.
    { split; [exact Hs|]. right. split; [eauto|].
      not_quiet_tail. }
    split; [exact Hs|]. left. split; [reflexivity|].
    apply quiet_app. split; [exact Hq | quiet_tac].
  - split; [exact Hs|]. right. split; [eauto|].
    destruct Ho as [[? _]|[_ Hq]]; [discriminate|].
    intros H. apply quiet_app in H as [? _]. contradiction.
Qed.

(** Every completed scan returns the object built from the three reads. *)
Lemma simulateScan_completed env u w res w' :
  simulateScan env u w = (Normal res, w') ->
  res = makeResult u (random env) (dateNow env) (newDate env)
  /\ quiet env scanSites.
Proof.
  intros Hrun. destruct (simulateScan_run env u w) as [_ Ho].
  rewrite Hrun in Ho. simpl in Ho.
  destruct Ho as [[Hc Hq]|[[e ?] _]]; [|discriminate].
  split; [congruence | exact Hq].
Qed.

(** A scan with no fault completes. *)
Lemma simulateScan_completes env u w :
  quiet env scanSites ->
  exists w', simulateScan env u w
    = (Normal (makeResult u (random env) (dateNow env) (newDate env)), w').
Proof.
  intros Hq. destruct (simulateScan_run env u w) as [_ Ho].
  destruct (simulateScan env u w) as [c w']. simpl in Ho. exists w'.
  destruct Ho as [[Hc _]|[_ Hn]]; [congruence | contradiction].
Qed.

Lemma scanAndPublish_run env u w :
  let r := scanAndPublish env u w in
  let res := makeResult u (random env) (dateNow env) (newDate env) in
  outcome env trySites r.1 tt
  /\ url (state r.2) = url (state w)
  /\ isScanning (state r.2) = isScanning (state w)
  /\ (quiet env trySites ->
      currentResult (state r.2) = Some res
      /\ scanHistory (state r.2) = pushHistory res (scanHistory (state w))
      /\ last (toasts r.2) = Some (scanCompleteToast res))
  /\ (~ quiet env scanSites -> sameResults w r.2).
Proof.
  cbv zeta. unfold scanAndPublish, trySites. rewrite bind_run.
  destruct (simulateScan_run env u w) as [Hs Ho].
  revert Ho. generalize scanSites. intros L Ho. unfold outcome in *.
  destruct (simulateScan env u w) as [[res|e] w1]; simpl in Hs, Ho.
  - destruct Ho as [[Hres Hq]|[[e ?] _]]; [|discriminate].
    injection Hres as ->.
    destruct Hs as (Hu & Hi & Hc & Hh & Ht).
    rewrite !bind_run, !at_site_run.
    destruct (fault env PublishResult) as [e|] eqn:E1; simpl.
    { split; [right; split; [eauto | not_quiet_tail]|].
      split; [assumption|]. split; [assumption|].
      split; [intros Hq'; exfalso; revert Hq'; not_quiet_tail
             | intros; contradiction]. }
    rewrite !bind_run, !at_site_run.
    destruct (fault env PublishHistory) as [e|] eqn:E2; simpl.
    { split; [right; split; [eauto | not_quiet_tail]|].
      split; [assumption|]. split; [assumption|].
      split; [intros Hq'; exfalso; revert Hq'; not_quiet_tail
             | intros; contradiction]. }
    rewrite !at_site_run.
    destruct (fault env CompleteToast) as [e|] eqn:E3; simpl.
    { split; [right; split; [eauto | not_quiet_tail]|].
      split; [assumption|]. split; [assumption|].
      split; [intros Hq'; exfalso; revert Hq'; not_quiet_tail
             | intros; contradiction]. }
    split; [left; split; [reflexivity|]|].
    { apply quiet_app. split; [exact Hq | quiet_tac]. }
    split; [assumption|]. split; [assumption|].
    split; [intros _ | intros; contradiction].
    split; [reflexivity|]. split; [by rewrite Hh | apply last_snoc].
  - destruct Ho as [[? _]|[_ Hq]]; [discriminate|].
    split; [right; split; [eauto|]|].
    { intros H. apply quiet_app in H as [? _]. contradiction. }
    destruct Hs as (Hu & Hi & Hc & Hh & Ht).
    split; [assumption|]. split; [assumption|].
    split; [intros H; exfalso; apply quiet_app in H as [? _]; contradiction|].
    intros _. repeat split; assumption.
Qed.

Lemma quietEnv_quiet r sites : quiet (quietEnv r) sites.
Proof. apply Forall_forall. reflexivity. Qed.

Lemma unit_interval_three_quarters : unit_interval (3 # 4).
Proof. split; [discriminate | reflexivity]. Qed.

(** ** The claims about the sampler and the score *)

(** C1: a completed scan holds between 1 and 4 vulnerabilities, and they
    are the first N entries of the catalog, in catalog order, for N the
    drawn count: the slice [MOCK_VULNERABILITIES.slice(0, N)], a prefix of
    the catalog that never reaches a fifth entry.  (The catalog has three
    entries, so the slice has [min N 3] of them.)  A scan with no fault
    does complete. *)
Theorem scan_vulnerabilities_are_catalog_prefix env u w :
  unit_interval (random env) ->
  (quiet env scanSites -> exists res w', simulateScan env u w = (Normal res, w'))
  /\ forall res w', simulateScan env u w = (Normal res, w') ->
       let N := numVulns (random env) in
       1 <= N <= 4
       /\ (1 <= length (vulnerabilities res) <= 4)%nat
       /\ vulnerabilities res = take (Z.to_nat N) MOCK_VULNERABILITIES
       /\ vulnerabilities res `prefix_of` MOCK_VULNERABILITIES
       /\ (forall i v, vulnerabilities res !! i = Some v ->
             MOCK_VULNERABILITIES !! i = Some v /\ (i < Z.to_nat N)%nat)
       /\ vulnerabilities res !! 4%nat = None
       /\ Z.of_nat (length (vulnerabilities res)) = Z.min N 3.
Proof.
  intros Hr. split.
  { intros Hq. destruct (simulateScan_completes env u w Hq) as [w' Hw]. eauto. }
  intros res w' Hrun N.
  destruct (simulateScan_completed _ _ _ _ _ Hrun) as [-> _].
  pose proof (numVulns_range _ Hr) as HN.
  pose proof (selectedVulns_length _ Hr) as Hlen.
  pose proof (selectedVulns_take _ Hr) as Htake.
  cbn [vulnerabilities makeResult]. fold N in HN, Hlen, Htake.
  split; [exact HN|]. split; [lia|]. split; [exact Htake|].
  split; [rewrite Htake; apply prefix_take|].
  split.
  { intros i v Hi. rewrite Htake in Hi.
    apply lookup_take_Some in Hi. exact Hi. }
  split; [apply lookup_ge_None; lia | exact Hlen].
Qed.

Lemma scan_vulnerabilities_are_catalog_prefix_witness :
  unit_interval (3 # 4)
  /\ exists res w',
       simulateScan (quietEnv (3 # 4)) "https://example.com"
         (initialWorld "https://example.com") = (Normal res, w')
       /\ numVulns (3 # 4) = 4
       /\ vulnerabilities res = take 4 MOCK_VULNERABILITIES
       /\ length (vulnerabilities res) = 3%nat.
Proof.
  split; [exact unit_interval_three_quarters|].
  destruct (scan_vulnerabilities_are_catalog_prefix (quietEnv (3 # 4))
              "https://example.com" (initialWorld "https://example.com")
              unit_interval_three_quarters) as [Hdone Hres].
  destruct (Hdone (quietEnv_quiet _ _)) as (res & w' & Hrun).
  exists res, w'. split; [exact Hrun|].
  destruct (Hres res w' Hrun) as (_ & _ & Htake & _ & _ & _ & Hlen).
  split; [reflexivity|]. split; [exact Htake|].
  change (numVulns (random (quietEnv (3 # 4)))) with 4 in Hlen. lia.
Defined.

(** The claim C2 as stated fails when the drawn count is 4: the slice has
    the three entries of the catalog and the score is 55, not 40. *)
Lemma score_is_not_40_when_four_drawn :
  exists res w',
    simulateScan (quietEnv (3 # 4)) "https://example.com"
      (initialWorld "https://example.com") = (Normal res, w')
    /\ numVulns (random (quietEnv (3 # 4))) = 4
    /\ overallScore res = 55
    /\ overallScore res
       <> Z.max 10 (100 - 15 * numVulns (random (quietEnv (3 # 4)))).
Proof.
  destruct (simulateScan_completes (quietEnv (3 # 4)) "https://example.com"
              (initialWorld "https://example.com") (quietEnv_quiet _ _))
    as [w' Hrun].
  eexists _, w'. split; [exact Hrun|].
  split; [reflexivity|]. split; [reflexivity | discriminate].
Qed.

(** C2, amended: the drawn count N = floor(random * 4) + 1 is in {1,2,3,4}
    and the score of a completed scan is max(10, 100 - 15 * min(N, 3)),
    computed from the length of the slice: 85 for N = 1, 70 for N = 2, and
    55 for N = 3 and for N = 4. *)
Theorem scan_score_of_drawn_count env u w :
  unit_interval (random env) ->
  (quiet env scanSites -> exists res w', simulateScan env u w = (Normal res, w'))
  /\ forall res w', simulateScan env u w = (Normal res, w') ->
       let N := numVulns (random env) in
       (N = 1 \/ N = 2 \/ N = 3 \/ N = 4)
       /\ overallScore res = Z.max 10 (100 - 15 * Z.min N 3)
       /\ overallScore res
          = Z.max 10 (100 - 15 * Z.of_nat (length (vulnerabilities res)))
       /\ (N = 1 -> overallScore res = 85)
       /\ (N = 2 -> overallScore res = 70)
       /\ (N = 3 -> overallScore res = 55)
       /\ (N = 4 -> overallScore res = 55).
Proof.
  intros Hr. split.
  { intros Hq. destruct (simulateScan_completes env u w Hq) as [w' Hw]. eauto. }
  intros res w' Hrun N.
  destruct (simulateScan_completed _ _ _ _ _ Hrun) as [-> _].
  pose proof (numVulns_range _ Hr) as HN.
  pose proof (selectedVulns_length _ Hr) as Hlen.
  cbn [overallScore vulnerabilities makeResult]. unfold scoreOf.
  fold N in HN, Hlen. rewrite Hlen.
  repeat split; lia.
Qed.

Lemma scan_score_of_drawn_count_witness :
  unit_interval (3 # 4)
  /\ exists res w',
       simulateScan (quietEnv (3 # 4)) "https://example.com"
         (initialWorld "https://example.com") = (Normal res, w')
       /\ overallScore res = 55.
Proof.
  split; [exact unit_interval_three_quarters|].
  destruct (scan_score_of_drawn_count (quietEnv (3 # 4))
              "https://example.com" (initialWorld "https://example.com")
              unit_interval_three_quarters) as [Hdone Hres].
  destruct (Hdone (quietEnv_quiet _ _)) as (res & w' & Hrun).
  exists res, w'. split; [exact Hrun|].
  destruct (Hres res w' Hrun) as (_ & _ & _ & _ & _ & _ & H4).
  apply H4. reflexivity.
Defined.

(** C3: the score of every scan result that is constructed (the object
    literal of [simulateScan] is the only place where one is) equals
    max(10, 100 - 15 * len(vulnerabilities)) for the actual length of its
    vulnerability sequence; a scan throws only after a fault; the score
    does not increase with that length and is never below 10. *)
Theorem score_is_function_of_length env u w :
  match (simulateScan env u w).1 with
  | Normal res =>
      overallScore res
      = Z.max 10 (100 - 15 * Z.of_nat (length (vulnerabilities res)))
  | Throw _ => ~ quiet env scanSites
  end
  /\ (forall u' r now date,
        let res := makeResult u' r now date in
        overallScore res
        = Z.max 10 (100 - 15 * Z.of_nat (length (vulnerabilities res))))
  /\ (forall vs vs' : list Vulnerability,
        (length vs <= length vs')%nat -> scoreOf vs' <= scoreOf vs)
  /\ (forall vs : list Vulnerability, 10 <= scoreOf vs)
  /\ (forall vs : list Vulnerability, (6 <= length vs)%nat -> scoreOf vs = 10).
Proof.
  assert (Hmk : forall u' r now date,
             overallScore (makeResult u' r now date)
             = Z.max 10 (100 - 15 * Z.of_nat
                 (length (vulnerabilities (makeResult u' r now date))))).
  { intros. cbn [overallScore vulnerabilities makeResult]. unfold scoreOf. lia. }
  split; [|split; [exact Hmk|split; [exact scoreOf_antitone|split;
    [exact scoreOf_floor|intros vs Hvs; unfold scoreOf; lia]]]].
  destruct (simulateScan_run env u w) as [_ Ho].
  destruct (simulateScan env u w) as [[res|e] w']; simpl in Ho |- *.
  - destruct Ho as [[Hres _]|[[e ?] _]]; [|discriminate].
    injection Hres as ->. apply Hmk.
  - destruct Ho as [[? _]|[_ Hq]]; [discriminate | exact Hq].
Qed.

(** C10: the catalog holds exactly three entries, so a completed scan has
    at most three vulnerabilities, also when the drawn count is 4; its
    score is 85, 70 or 55, never 40, and never the floor of 10: the clamp
    is not the active branch.  A scan with no fault does complete. *)
Theorem scan_score_is_85_70_or_55 env u w :
  unit_interval (random env) ->
  length MOCK_VULNERABILITIES = 3%nat
  /\ (quiet env scanSites -> exists res w', simulateScan env u w = (Normal res, w'))
  /\ forall res w', simulateScan env u w = (Normal res, w') ->
       (1 <= length (vulnerabilities res) <= 3)%nat
       /\ (numVulns (random env) = 4 -> length (vulnerabilities res) = 3%nat)
       /\ (overallScore res = 85 \/ overallScore res = 70 \/ overallScore res = 55)
       /\ overallScore res <> 40
       /\ overallScore res <> 10
       /\ 10 < 100 - Z.of_nat (length (vulnerabilities res)) * 15
       /\ overallScore res = 100 - Z.of_nat (length (vulnerabilities res)) * 15.
Proof.
  intros Hr. split; [reflexivity|]. split.
  { intros Hq. destruct (simulateScan_completes env u w Hq) as [w' Hw]. eauto. }
  intros res w' Hrun.
  destruct (simulateScan_completed _ _ _ _ _ Hrun) as [-> _].
  pose proof (numVulns_range _ Hr) as HN.
  pose proof (selectedVulns_length _ Hr) as Hlen.
  cbn [overallScore vulnerabilities makeResult]. unfold scoreOf.
  repeat split; lia.
Qed.

Lemma scan_score_is_85_70_or_55_witness :
  unit_interval (3 # 4)
  /\ exists res w',
       simulateScan (quietEnv (3 # 4)) "https://example.com"
         (initialWorld "https://example.com") = (Normal res, w')
       /\ numVulns (3 # 4) = 4
       /\ length (vulnerabilities res) = 3%nat
       /\ overallScore res <> 40.
Proof.
  split; [exact unit_interval_three_quarters|].
  destruct (scan_score_is_85_70_or_55 (quietEnv (3 # 4))
              "https://example.com" (initialWorld "https://example.com")
              unit_interval_three_quarters) as (_ & Hdone & Hres).
  destruct (Hdone (quietEnv_quiet _ _)) as (res & w' & Hrun).
  exists res, w'. split; [exact Hrun|]. split; [reflexivity|].
  destruct (Hres res w' Hrun) as (_ & H4 & _ & Hne & _).
  split; [apply H4; reflexivity | exact Hne].
Defined.

(** ** The URL validator *)

Lemma startsWith_spec (s p : string) :
  startsWith s p = true <-> exists rest, s = p +:+ rest.
Proof.
  revert s. induction p as [|a p IH]; intros s; simpl.
  - split; [intros _; exists s; reflexivity | reflexivity].
  - destruct s as [|b s].
    + split; [discriminate | intros [rest H]; discriminate].
    + destruct (Ascii.eqb_spec a b) as [->|Hne]; simpl.
      * rewrite IH. split; intros [rest H]; exists rest.
        -- by rewrite H.
        -- by injection H.
      * split; [discriminate | intros [rest H]; injection H; congruence].
Qed.

Lemma validateUrl_unfold parseURL u :
  validateUrl parseURL u =
  match parseURL u with
  | Some _ => startsWith u "http://" || startsWith u "https://"
  | None => false
  end.
Proof. unfold validateUrl, URL_new. destruct (parseURL u); reflexivity. Qed.

(** C4: the validator returns true exactly for a string that the URL
    parser accepts and that begins literally with "http://" or "https://";
    a parse failure gives false (the validator is a total function into the
    booleans, it never throws); "not a url" and "ftp://x.com" give false,
    and "https://example.com", which the platform parses, gives true, as
    does every parsed string with one of the two prefixes. *)
Theorem validateUrl_spec (parseURL : string -> option URL) (u : string) :
  (validateUrl parseURL u = true <->
     is_Some (parseURL u)
     /\ ((exists rest, u = "http://" +:+ rest)
         \/ (exists rest, u = "https://" +:+ rest)))
  /\ (parseURL u = None -> validateUrl parseURL u = false)
  /\ validateUrl parseURL "not a url" = false
  /\ validateUrl parseURL "ftp://x.com" = false
  /\ (is_Some (parseURL "https://example.com") ->
      validateUrl parseURL "https://example.com" = true)
  /\ (forall rest, is_Some (parseURL ("http://" +:+ rest)) ->
      validateUrl parseURL ("http://" +:+ rest) = true)
  /\ (forall rest, is_Some (parseURL ("https://" +:+ rest)) ->
      validateUrl parseURL ("https://" +:+ rest) = true).
Proof.
  split; [|split; [|split; [|split; [|split; [|split]]]]].
  - rewrite validateUrl_unfold, <- !startsWith_spec.
    destruct (parseURL u) as [x|].
    + rewrite orb_true_iff. split; [intros H; split; [eauto | exact H] | tauto].
    + split; [discriminate | intros [[? ?] _]; discriminate].
  - intros H. by rewrite validateUrl_unfold, H.
  - rewrite validateUrl_unfold. by destruct (parseURL _).
  - rewrite validateUrl_unfold. by destruct (parseURL _).
  - intros [x Hx]. by rewrite validateUrl_unfold, Hx.
  - intros rest [x Hx]. by rewrite validateUrl_unfold, Hx.
  - intros rest [x Hx]. by rewrite validateUrl_unfold, Hx.
Qed.

Lemma validateUrl_spec_witness :
  sampleParseURL "https://example.com"
    = Some {| protocol := "https:"; hostname := "example.com" |}
  /\ validateUrl sampleParseURL "https://example.com" = true
  /\ sampleParseURL "ftp://x.com"
     = Some {| protocol := "ftp:"; hostname := "x.com" |}
  /\ validateUrl sampleParseURL "ftp://x.com" = false
  /\ sampleParseURL "not a url" = None
  /\ validateUrl sampleParseURL "not a url" = false.
Proof.
  destruct (validateUrl_spec sampleParseURL "not a url")
    as (_ & Hnone & Hnot & Hftp & Hhttps & _).
  split; [reflexivity|]. split; [apply Hhttps; eexists; reflexivity|].
  split; [reflexivity|]. split; [exact Hftp|].
  split; [reflexivity | exact Hnot].
Defined.

(** ** The bounded history *)

Lemma pushHistory_take (result : ScanResult) (prev : list ScanResult) :
  pushHistory result prev = result :: take 9 prev.
Proof. reflexivity. Qed.

Lemma pushHistory_length (result : ScanResult) (prev : list ScanResult) :
  length (pushHistory result prev) = S (min 9 (length prev)).
Proof. rewrite pushHistory_take. cbn [length]. by rewrite length_take. Qed.

(** C5: after an insertion the history has at most 10 entries and the new
    entry is first.  Inserting into a history of 10 entries gives exactly
    10 entries: the new one, then the first nine of the old ones in their
    order; the entry that was 10th from the front has no position left, and
    when the entries are distinct it is no longer an element. *)
Theorem pushHistory_keeps_ten (result : ScanResult) (prev : list ScanResult) :
  (length (pushHistory result prev) <= 10)%nat
  /\ head (pushHistory result prev) = Some result
  /\ (forall i, (i < 9)%nat -> pushHistory result prev !! S i = prev !! i)
  /\ (length prev = 10%nat ->
      length (pushHistory result prev) = 10%nat
      /\ pushHistory result prev !! 0%nat = Some result
      /\ pushHistory result prev = result :: removelast prev
      /\ pushHistory result prev !! 10%nat = None
      /\ forall oldest, prev !! 9%nat = Some oldest ->
           prev = removelast prev ++ [oldest]
           /\ (NoDup (result :: prev) -> oldest ∉ pushHistory result prev)).
Proof.
  split; [rewrite pushHistory_length; lia|].
  split; [reflexivity|].
  split.
  { intros i Hi. rewrite pushHistory_take.
    change (take 9 prev !! i = prev !! i). by apply lookup_take_lt. }
  intros Hlen.
  assert (Hsplit : forall oldest, prev !! 9%nat = Some oldest ->
            prev = take 9 prev ++ [oldest]).
  { intros oldest Hold. rewrite <- (take_drop 9 prev) at 1. f_equal.
    apply list_eq. intros [|i].
    - by rewrite lookup_drop, Nat.add_0_r.
    - rewrite lookup_drop.
      transitivity (@None ScanResult); [apply lookup_ge_None; lia | reflexivity]. }
  assert (Hrm : removelast prev = take 9 prev).
  { destruct (prev !! 9%nat) as [oldest|] eqn:Hold.
    - rewrite (Hsplit oldest eq_refl) at 1. apply removelast_last.
    - apply lookup_ge_None in Hold. lia. }
  split; [rewrite pushHistory_length; lia|].
  split; [reflexivity|].
  split; [by rewrite Hrm|].
  split; [apply lookup_ge_None; rewrite pushHistory_length; lia|].
  intros oldest Hold. rewrite Hrm. split; [by apply Hsplit|].
  intros Hnd Hin. rewrite (Hsplit oldest Hold) in Hnd.
  rewrite pushHistory_take in Hin.
  apply NoDup_cons in Hnd as [Hfresh Hnd].
  apply NoDup_app in Hnd as (_ & Hdisj & _).
  apply elem_of_cons in Hin as [->|Hin].
  - apply Hfresh. apply elem_of_app. right. by apply list_elem_of_singleton.
  - apply (Hdisj oldest Hin). by apply list_elem_of_singleton.
Qed.

Lemma sampleResult_inj : Inj (=) (=) sampleResult.
Proof. intros x y H. by injection H. Qed.

Lemma pushHistory_keeps_ten_witness :
  length sampleHistory = 10%nat
  /\ length (pushHistory (sampleResult 11) sampleHistory) = 10%nat
  /\ head (pushHistory (sampleResult 11) sampleHistory) = Some (sampleResult 11)
  /\ sampleHistory !! 9%nat = Some (sampleResult 1)
  /\ sampleResult 1 ∉ pushHistory (sampleResult 11) sampleHistory.
Proof.
  destruct (pushHistory_keeps_ten (sampleResult 11) sampleHistory)
    as (_ & Hhead & _ & Hfull).
  destruct (Hfull eq_refl) as (Hlen & _ & _ & _ & Hold).
  destruct (Hold (sampleResult 1) eq_refl) as [_ Hgone].
  split; [reflexivity|]. split; [exact Hlen|]. split; [exact Hhead|].
  split; [reflexivity|]. apply Hgone.
  change (NoDup (sampleResult <$> [11; 10; 9; 8; 7; 6; 5; 4; 3; 2; 1])).
  apply (@NoDup_fmap_2 _ _ sampleResult sampleResult_inj).
  apply NoDup_ListNoDup.
  repeat (constructor; [cbn; intuition discriminate|]). constructor.
Defined.

(** ** The scan trigger *)

Lemma handleScan_invalid parseURL env w :
  validateUrl parseURL (url (state w)) = false ->
  handleScan parseURL env w
  = (Normal tt, {| state := state w; toasts := toasts w ++ [invalidUrlToast] |}).
Proof. intros Hv. unfold handleScan. rewrite bind_run. cbn [gets]. by rewrite Hv. Qed.

(** The world when the [try] block is entered. *)
Lemma handleScan_valid parseURL env w :
  validateUrl parseURL (url (state w)) = true ->
  handleScan parseURL env w
  = try_finally
      (try_catch (scanAndPublish env (url (state w)))
         (fun _ => at_site env FailedToast (toast scanFailedToast)))
      (setIsScanning false)
      {| state := {| url := url (state w); isScanning := true; progress := 0;
                     currentResult := None;
                     scanHistory := scanHistory (state w);
                     activeTab := activeTab (state w) |};
         toasts := toasts w |}.
Proof. intros Hv. unfold handleScan. rewrite bind_run. cbn [gets]. by rewrite Hv. Qed.

(** C6: when the URL fails validation, the trigger emits the destructive
    "Invalid URL" toast and nothing else: it completes without reaching a
    single call site of the scan (whatever faults the platform holds), and
    the history, the current result, the progress and the scanning flag
    are those of before, as is the whole state. *)
Theorem handleScan_rejects_invalid_url parseURL env w :
  validateUrl parseURL (url (state w)) = false ->
  let r := handleScan parseURL env w in
  r.1 = Normal tt
  /\ toasts r.2 = toasts w ++ [invalidUrlToast]
  /\ toast_title invalidUrlToast = "Invalid URL"
  /\ toast_variant invalidUrlToast = Some variant_destructive
  /\ scanHistory (state r.2) = scanHistory (state w)
  /\ currentResult (state r.2) = currentResult (state w)
  /\ progress (state r.2) = progress (state w)
  /\ isScanning (state r.2) = isScanning (state w)
  /\ state r.2 = state w.
Proof.
  intros Hv. cbv zeta. rewrite (handleScan_invalid _ _ _ Hv). cbn [fst snd state toasts].
  repeat split.
Qed.

Lemma handleScan_rejects_invalid_url_witness :
  validateUrl sampleParseURL "not a url" = false
  /\ (handleScan sampleParseURL (faultyEnv (3 # 4) (StepToast 0))
        (initialWorld "not a url")).1 = Normal tt
  /\ toasts (handleScan sampleParseURL (faultyEnv (3 # 4) (StepToast 0))
        (initialWorld "not a url")).2 = [invalidUrlToast]
  /\ state (handleScan sampleParseURL (faultyEnv (3 # 4) (StepToast 0))
        (initialWorld "not a url")).2 = initialState "not a url".
Proof.
  split; [reflexivity|].
  destruct (handleScan_rejects_invalid_url sampleParseURL
              (faultyEnv (3 # 4) (StepToast 0)) (initialWorld "not a url")
              eq_refl) as (Hc & Ht & _ & _ & _ & _ & _ & _ & Hs).
  split; [exact Hc|]. split; [exact Ht | exact Hs].
Defined.

(** C9: once the scan has started, the scanning flag is cleared when the
    trigger finishes, on every exit path: after a scan with no fault (the
    result is then published and the "Scan Complete" toast emitted), after
    a fault raised anywhere in the [try] block (it is caught, the trigger
    completes normally and the last toast is the destructive "Scan Failed"
    one), and even when the toast of the handler faults in its turn.  A
    fault inside the step sequence publishes nothing. *)
Theorem handleScan_clears_scanning_flag parseURL env w :
  validateUrl parseURL (url (state w)) = true ->
  let r := handleScan parseURL env w in
  let res := makeResult (url (state w)) (random env) (dateNow env) (newDate env) in
  isScanning (state r.2) = false
  /\ (quiet env trySites ->
      r.1 = Normal tt
      /\ currentResult (state r.2) = Some res
      /\ scanHistory (state r.2) = pushHistory res (scanHistory (state w))
      /\ last (toasts r.2) = Some (scanCompleteToast res))
  /\ (~ quiet env trySites -> fault env FailedToast = None ->
      r.1 = Normal tt
      /\ last (toasts r.2) = Some scanFailedToast
      /\ toast_title scanFailedToast = "Scan Failed"
      /\ toast_variant scanFailedToast = Some variant_destructive)
  /\ (~ quiet env trySites -> forall e, fault env FailedToast = Some e ->
      r.1 = Throw e)
  /\ (~ quiet env scanSites ->
      currentResult (state r.2) = None
      /\ scanHistory (state r.2) = scanHistory (state w)).
Proof.
  intros Hv. cbv zeta. rewrite (handleScan_valid _ _ _ Hv).
  set (w0 := {| state := _; toasts := toasts w |}).
  unfold try_finally, try_catch.
  destruct (scanAndPublish_run env (url (state w)) w0)
    as (Ho & _ & _ & Hq & Hnq).
  destruct (scanAndPublish env (url (state w)) w0) as [[[]|e] w1];
    cbn [fst snd] in Ho, Hq, Hnq.
  - destruct Ho as [[_ Hquiet]|[[e ?] _]]; [|discriminate].
    cbn. split; [reflexivity|].
    split; [intros _; split; [reflexivity | exact (Hq Hquiet)]|].
    split; [intros Hn; contradiction|].
    split; [intros Hn; contradiction|].
    intros Hn. destruct (Hnq Hn) as (_ & _ & Hc & Hh & _). split; assumption.
  - destruct Ho as [[? _]|[_ Hn]]; [discriminate|].
    rewrite at_site_run.
    destruct (fault env FailedToast) as [e'|] eqn:Ef; cbn.
    + split; [reflexivity|].
      split; [intros Hquiet; contradiction|].
      split; [intros _ ?; discriminate|].
      split; [intros _ e0 He0; congruence|].
      intros Hn'. destruct (Hnq Hn') as (_ & _ & Hc & Hh & _). split; assumption.
    + split; [reflexivity|].
      split; [intros Hquiet; contradiction|].
      split; [intros _ _; split; [reflexivity|split; [apply last_snoc|split; reflexivity]]|].
      split; [intros _ e0 He0; discriminate|].
      intros Hn'. destruct (Hnq Hn') as (_ & _ & Hc & Hh & _). split; assumption.
Qed.

Lemma handleScan_clears_scanning_flag_witness :
  validateUrl sampleParseURL "https://example.com" = true
  /\ ~ quiet (faultyEnv (3 # 4) (StepToast 2)) trySites
  /\ (handleScan sampleParseURL (faultyEnv (3 # 4) (StepToast 2))
        (initialWorld "https://example.com")).1 = Normal tt
  /\ isScanning (state (handleScan sampleParseURL (faultyEnv (3 # 4) (StepToast 2))
        (initialWorld "https://example.com")).2) = false
  /\ last (toasts (handleScan sampleParseURL (faultyEnv (3 # 4) (StepToast 2))
        (initialWorld "https://example.com")).2) = Some scanFailedToast.
Proof.
  assert (Hn : ~ quiet (faultyEnv (3 # 4) (StepToast 2)) trySites).
  { intros Hq.
    assert (Hs : fault (faultyEnv (3 # 4) (StepToast 2)) (StepToast 2) = None).
    { eapply Forall_forall in Hq; [exact Hq|].
      apply list_elem_of_In. cbn. tauto. }
    discriminate Hs. }
  split; [reflexivity|]. split; [exact Hn|].
  destruct (handleScan_clears_scanning_flag sampleParseURL
              (faultyEnv (3 # 4) (StepToast 2))
              (initialWorld "https://example.com") eq_refl)
    as (Hflag & _ & Hfail & _).
  destruct (Hfail Hn eq_refl) as (Hc & Hlast & _).
  split; [exact Hc|]. split; [exact Hflag | exact Hlast].
Defined.

(** ** The rollups of the history *)

Lemma sumScores_totalScore (h : list ScanResult) : sumScores h = totalScore h.
Proof.
  unfold sumScores, totalScore.
  assert (Hgen : forall acc,
            foldl (fun acc scan => acc + overallScore scan) acc h
            = acc + foldr Z.add 0 (overallScore <$> h)).
  { induction h as [|scan h IH]; intros acc; cbn [foldl foldr fmap list_fmap].
    - lia.
    - rewrite IH. lia. }
  rewrite Hgen. lia.
Qed.

(** Rounding a quotient of integers to the nearest integer, a tie going
    up, is an integer division. *)
Lemma Math_round_quotient (s n : Z) :
  0 < n ->
  Math_round (inject_Z s / inject_Z n) = (2 * s + n) / (2 * n).
Proof.
  intros Hn. unfold Math_round. rewrite Zdiv_Qdiv.
  apply Qfloor_comp.
  rewrite !inject_Z_plus, !inject_Z_mult.
  field. intros H. apply (Qeq_bool_neq (inject_Z n) 0); [|exact H].
  unfold Qeq_bool, inject_Z. cbn. destruct n; try lia; reflexivity.
Qed.

Lemma Set_add_spec (s : list string) (x : string) :
  NoDup s ->
  NoDup (Set_add s x) /\ forall y, y ∈ Set_add s x <-> y ∈ s \/ y = x.
Proof.
  intros Hnd. unfold Set_add. destruct (decide (x ∈ s)) as [Hin|Hout].
  - split; [exact Hnd|]. intros y. split; [auto | intros [?| ->]; assumption].
  - split.
    + apply NoDup_app. split; [exact Hnd|]. split; [|apply NoDup_singleton].
      intros y Hy Hy'. apply list_elem_of_singleton in Hy'. congruence.
    + intros y. rewrite elem_of_app, list_elem_of_singleton. reflexivity.
Qed.

Lemma Set_new_spec (xs : list string) :
  NoDup (Set_new xs) /\ forall y, y ∈ Set_new xs <-> y ∈ xs.
Proof.
  unfold Set_new.
  assert (Hgen : forall acc, NoDup acc ->
            NoDup (foldl Set_add acc xs)
            /\ forall y, y ∈ foldl Set_add acc xs <-> y ∈ acc \/ y ∈ xs).
  { induction xs as [|x xs IH]; intros acc Hacc; cbn [foldl].
    - split; [exact Hacc|]. intros y. rewrite elem_of_nil. tauto.
    - destruct (Set_add_spec acc x Hacc) as [Hnd Hel].
      destruct (IH _ Hnd) as [Hnd' Hel'].
      split; [exact Hnd'|]. intros y.
      rewrite Hel', Hel, elem_of_cons. tauto. }
  destruct (Hgen [] (NoDup_nil_2)) as [Hnd Hel].
  split; [exact Hnd|]. intros y. rewrite Hel, elem_of_nil. tauto.
Qed.

(** The size of the [Set] is the number of distinct values. *)
Lemma Set_size_cardinal (xs : list string) :
  Set_size (Set_new xs) = size (list_to_set xs : gset string).
Proof.
  destruct (Set_new_spec xs) as [Hnd Hel]. unfold Set_size.
  rewrite <- (size_list_to_set (C := gset string) _ Hnd).
  f_equal. apply set_eq. intros y.
  rewrite !elem_of_list_to_set. apply Hel.
Qed.

Lemma hostnames_parsed parseURL (h : list ScanResult) :
  Forall (fun scan => is_Some (parseURL (result_url scan))) h ->
  exists hosts,
    hostnames parseURL h = Normal hosts
    /\ Forall2 (fun scan host =>
                  exists u, parseURL (result_url scan) = Some u /\ hostname u = host)
               h hosts.
Proof.
  induction 1 as [|scan h [u Hu] _ (hosts & Hhosts & Hall)].
  - exists []. split; [reflexivity | constructor].
  - exists (hostname u :: hosts). split.
    + unfold hostnames in *. cbn [mapM]. rewrite Hhosts.
      unfold URL_new. rewrite Hu. reflexivity.
    + constructor; [eauto | exact Hall].
Qed.

(** C7: on a non-empty history whose addresses the platform parses, the
    average score is round(sum of the scores / length), rounding to the
    nearest integer with a tie going up, so (2 * sum + length) divided by
    (2 * length); and the count of distinct hostnames is the cardinality
    of the set of the hostnames parsed from the stored addresses, one for
    every hostname however many results share it. *)
Theorem history_rollups parseURL (h : list ScanResult) :
  h <> [] ->
  Forall (fun scan => is_Some (parseURL (result_url scan))) h ->
  let n := Z.of_nat (length h) in
  avgScore h = Math_round (inject_Z (totalScore h) / inject_Z n)
  /\ avgScore h = (2 * totalScore h + n) / (2 * n)
  /\ 2 * n * avgScore h <= 2 * totalScore h + n < 2 * n * (avgScore h + 1)
  /\ exists hosts,
       hostnames parseURL h = Normal hosts
       /\ Forall2 (fun scan host =>
                     exists u, parseURL (result_url scan) = Some u
                               /\ hostname u = host) h hosts
       /\ uniqueSites parseURL h = Normal (size (list_to_set hosts : gset string))
       /\ (size (list_to_set hosts : gset string) <= length h)%nat.
Proof.
  intros Hne Hparse n.
  assert (Hn : 0 < n) by (destruct h; [congruence | cbn in n; lia]).
  assert (Havg : avgScore h = (2 * totalScore h + n) / (2 * n)).
  { unfold avgScore. rewrite sumScores_totalScore.
    by apply Math_round_quotient. }
  split; [unfold avgScore; by rewrite sumScores_totalScore|].
  split; [exact Havg|].
  split.
  { rewrite Havg.
    pose proof (Z.mul_div_le (2 * totalScore h + n) (2 * n)).
    pose proof (Z.mul_succ_div_gt (2 * totalScore h + n) (2 * n)).
    lia. }
  destruct (hostnames_parsed parseURL h Hparse) as (hosts & Hhosts & Hall).
  exists hosts. split; [exact Hhosts|]. split; [exact Hall|].
  split.
  - unfold uniqueSites. rewrite Hhosts. cbn.
    by rewrite Set_size_cardinal.
  - rewrite <- Set_size_cardinal. unfold Set_size.
    destruct (Set_new_spec hosts) as [Hnd Hel].
    rewrite (Forall2_length _ _ _ Hall).
    apply submseteq_length, NoDup_submseteq; [exact Hnd|].
    intros y. apply Hel.
Qed.

Lemma history_rollups_witness :
  twoScansOfOneSite <> []
  /\ overallScore <$> twoScansOfOneSite = [85; 70]
  /\ avgScore twoScansOfOneSite = 78
  /\ hostnames sampleParseURL twoScansOfOneSite = Normal ["a.com"; "a.com"]
  /\ uniqueSites sampleParseURL twoScansOfOneSite = Normal 1%nat.
Proof.
  assert (Hne : twoScansOfOneSite <> []) by discriminate.
  assert (Hparse : Forall (fun scan => is_Some (sampleParseURL (result_url scan)))
                     twoScansOfOneSite).
  { repeat constructor; eexists; reflexivity. }
  destruct (history_rollups sampleParseURL twoScansOfOneSite Hne Hparse)
    as (_ & Havg & _ & hosts & Hhosts & _ & Hsites & _).
  split; [exact Hne|]. split; [reflexivity|].
  split; [rewrite Havg; reflexivity|].
  assert (Hh : hosts = ["a.com"; "a.com"]).
  { assert (Hc : hostnames sampleParseURL twoScansOfOneSite
                 = Normal ["a.com"; "a.com"]) by reflexivity.
    rewrite Hc in Hhosts. by injection Hhosts. }
  subst hosts. split; [exact Hhosts|].
  rewrite Hsites. reflexivity.
Defined.

(** ** The advisories of the result view *)

Lemma nextSteps_elem (r : ScanResult) (a : Advisory) :
  a ∈ nextSteps r <->
    (a = ImmediateAction (criticalCount r) /\ (0 < criticalCount r)%nat)
    \/ (a = HighPriority (highCount r) /\ (0 < highCount r)%nat)
    \/ (a = GoodPosture /\ 80 <= overallScore r).
Proof.
  unfold nextSteps. rewrite !elem_of_app.
  destruct (Nat.ltb_spec 0 (criticalCount r));
    destruct (Nat.ltb_spec 0 (highCount r));
    destruct (Z.leb_spec 80 (overallScore r));
    rewrite ?list_elem_of_singleton, ?elem_of_nil; intuition lia.
Qed.

(** C8: the result view emits the "immediate action" advisory exactly when
    the critical count is positive, the "high priority" advisory exactly
    when the high count is positive, whatever the critical count, and the
    "good posture" advisory exactly when the score is at least 80; each
    advisory cites its own count, and there are results with zero, one,
    two and three advisories. *)
Theorem nextSteps_are_independent (r : ScanResult) :
  ((exists n, ImmediateAction n ∈ nextSteps r) <-> (0 < criticalCount r)%nat)
  /\ ((exists n, HighPriority n ∈ nextSteps r) <-> (0 < highCount r)%nat)
  /\ (GoodPosture ∈ nextSteps r <-> 80 <= overallScore r)
  /\ (forall n, ImmediateAction n ∈ nextSteps r -> n = criticalCount r)
  /\ (forall n, HighPriority n ∈ nextSteps r -> n = highCount r)
  /\ (length (nextSteps r) <= 3)%nat
  /\ (exists r0, length (nextSteps r0) = 0%nat)
  /\ (exists r1, length (nextSteps r1) = 1%nat)
  /\ (exists r2, (0 < criticalCount r2)%nat
                 /\ nextSteps r2 = [ImmediateAction 1; HighPriority 1])
  /\ (exists r3, nextSteps r3 = [ImmediateAction 1; HighPriority 2; GoodPosture]).
Proof.
  split; [|split; [|split; [|split; [|split; [|split]]]]].
  - split.
    + intros [n Hn]. apply nextSteps_elem in Hn.
      destruct Hn as [[_ ?]|[[? _]|[? _]]]; [assumption | discriminate..].
    + intros Hc. exists (criticalCount r). apply nextSteps_elem. auto.
  - split.
    + intros [n Hn]. apply nextSteps_elem in Hn.
      destruct Hn as [[? _]|[[_ ?]|[? _]]]; [discriminate | assumption | discriminate].
    + intros Hc. exists (highCount r). apply nextSteps_elem. auto.
  - rewrite nextSteps_elem. split.
    + intros [[? _]|[[? _]|[_ ?]]]; [discriminate.. | assumption].
    + auto.
  - intros n Hn. apply nextSteps_elem in Hn.
    destruct Hn as [[? _]|[[? _]|[? _]]]; congruence.
  - intros n Hn. apply nextSteps_elem in Hn.
    destruct Hn as [[? _]|[[? _]|[? _]]]; congruence.
  - unfold nextSteps. rewrite !length_app.
    destruct (0 <? criticalCount r)%nat, (0 <? highCount r)%nat,
      (80 <=? overallScore r); cbn; lia.
  - split; [exists (resultWith 55 [medium]); reflexivity|].
    split; [exists (resultWith 85 [medium]); reflexivity|].
    split; [exists (resultWith 55 [medium; high; critical]); split; [by apply Nat.ltb_lt | reflexivity]|].
    exists (resultWith 90 [critical; high; high]). reflexivity.
Qed.

(** ** What every run of the trigger keeps true of the history *)

Lemma scanAndPublish_history env u w :
  let r := scanAndPublish env u w in
  let res := makeResult u (random env) (dateNow env) (newDate env) in
  scanHistory (state r.2) = scanHistory (state w)
  \/ scanHistory (state r.2) = pushHistory res (scanHistory (state w)).
Proof.
  cbv zeta. unfold scanAndPublish. rewrite bind_run.
  destruct (simulateScan_run env u w) as [Hs Ho].
  destruct (simulateScan env u w) as [[res|e] w1]; cbn [fst snd] in Hs, Ho.
  - destruct Ho as [[Hres _]|[[e ?] _]]; [|discriminate].
    injection Hres as ->. destruct Hs as (_ & _ & _ & Hh & _).
    rewrite !bind_run, !at_site_run.
    destruct (fault env PublishResult); cbn; [by left|].
    rewrite !bind_run, !at_site_run.
    destruct (fault env PublishHistory); cbn; [by left|].
    rewrite !at_site_run.
    destruct (fault env CompleteToast); cbn; right; by rewrite Hh.
  - left. apply Hs.
Qed.

Lemma handleScan_history parseURL env w :
  let r := handleScan parseURL env w in
  scanHistory (state r.2) = scanHistory (state w)
  \/ (validateUrl parseURL (url (state w)) = true
      /\ scanHistory (state r.2)
         = pushHistory
             (makeResult (url (state w)) (random env) (dateNow env) (newDate env))
             (scanHistory (state w))).
Proof.
  cbv zeta. destruct (validateUrl parseURL (url (state w))) eqn:Hv.
  - rewrite (handleScan_valid _ _ _ Hv).
    set (w0 := {| state := _; toasts := toasts w |}).
    unfold try_finally, try_catch.
    pose proof (scanAndPublish_history env (url (state w)) w0) as Hh.
    cbv zeta in Hh.
    destruct (scanAndPublish env (url (state w)) w0) as [[[]|e] w1];
      cbn [fst snd] in Hh.
    + cbn. destruct Hh as [Hh|Hh]; [left | right]; auto.
    + rewrite at_site_run.
      destruct (fault env FailedToast); cbn;
        (destruct Hh as [Hh|Hh]; [left | right]; auto).
  - left. by rewrite (handleScan_invalid _ _ _ Hv).
Qed.

(** The history never grows past ten entries. *)
Lemma handleScan_history_bounded parseURL env w :
  (length (scanHistory (state w)) <= 10)%nat ->
  (length (scanHistory (state (handleScan parseURL env w).2)) <= 10)%nat.
Proof.
  intros Hb. destruct (handleScan_history parseURL env w) as [->|[_ ->]];
    [exact Hb | rewrite pushHistory_length; lia].
Qed.

(** Every stored address is one the platform parsed, so the hostname
    rollup does not throw on a history the trigger built. *)
Lemma handleScan_history_parsed parseURL env w :
  Forall (fun scan => is_Some (parseURL (result_url scan)))
    (scanHistory (state w)) ->
  Forall (fun scan => is_Some (parseURL (result_url scan)))
    (scanHistory (state (handleScan parseURL env w).2)).
Proof.
  intros Hall. destruct (handleScan_history parseURL env w) as [->|[Hv ->]];
    [exact Hall|].
  rewrite pushHistory_take. constructor; [|by apply Forall_take].
  cbn [result_url makeResult]. rewrite validateUrl_unfold in Hv.
  destruct (parseURL (url (state w))); [eauto | discriminate].
Qed.

(** Every stored result has the score of its vulnerability count. *)
Lemma handleScan_history_scores parseURL env w :
  Forall (fun scan => overallScore scan = scoreOf (vulnerabilities scan))
    (scanHistory (state w)) ->
  Forall (fun scan => overallScore scan = scoreOf (vulnerabilities scan))
    (scanHistory (state (handleScan parseURL env w).2)).
Proof.
  intros Hall. destruct (handleScan_history parseURL env w) as [->|[_ ->]];
    [exact Hall|].
  rewrite pushHistory_take. constructor; [reflexivity | by apply Forall_take].
Qed.

Lemma clearHistory_empty w : scanHistory (state (clearHistory w).2) = [].
Proof. reflexivity. Qed.

(** * Further properties of the code *)

(** ** The open items of the result view *)

Lemma toggleItem_elem (id : string) (prev : list string) (x : string) :
  x ∈ toggleItem id prev <->
    (x <> id /\ x ∈ prev) \/ (x = id /\ id ∉ prev).
Proof.
  unfold toggleItem. case_bool_decide as Hin.
  - rewrite list_elem_of_filter. split; [auto | intros [?|[_ ?]]; [auto | contradiction]].
  - rewrite elem_of_app, list_elem_of_singleton. split.
    + intros [Hx| ->]; [left; split; [congruence | exact Hx] | right; auto].
    + intros [[_ ?]|[? _]]; auto.
Qed.

Lemma filter_ne_absent (id : string) (l : list string) :
  id ∉ l -> filter (fun item => item <> id) l = l.
Proof.
  induction l as [|y l IH]; intros Hid; [reflexivity|].
  apply not_elem_of_cons in Hid as [Hy Hid].
  rewrite filter_cons_True by congruence. f_equal. by apply IH.
Qed.

(** X1: toggling an id flips whether it is among the open items and leaves
    the membership of every other id as it was. *)
Theorem toggleItem_flips_membership (id : string) (prev : list string) :
  (id ∈ toggleItem id prev <-> id ∉ prev)
  /\ forall other, other <> id ->
       (other ∈ toggleItem id prev <-> other ∈ prev).
Proof.
  split.
  - rewrite toggleItem_elem. split; [intros [[? _]|[_ ?]]; [congruence | assumption] | auto].
  - intros other Hne. rewrite toggleItem_elem. split.
    + intros [[_ ?]|[? _]]; [assumption | contradiction].
    + auto.
Qed.

(** X2: the open items stay free of repeats; toggling twice an id that was
    closed gives back the very list, and toggling twice an id that was open
    moves it to the end, the items being the same. *)
Theorem toggleItem_twice (id : string) (prev : list string) :
  NoDup prev ->
  NoDup (toggleItem id prev)
  /\ (id ∉ prev -> toggleItem id (toggleItem id prev) = prev)
  /\ (id ∈ prev ->
      toggleItem id (toggleItem id prev) = filter (fun item => item <> id) prev ++ [id])
  /\ toggleItem id (toggleItem id prev) ≡ₚ prev.
Proof.
  intros Hnd.
  assert (Hnd1 : NoDup (toggleItem id prev)).
  { unfold toggleItem. case_bool_decide as Hin; [by apply NoDup_filter|].
    apply NoDup_app. split; [exact Hnd|]. split; [|apply NoDup_singleton].
    intros x Hx Hx'. apply list_elem_of_singleton in Hx'. congruence. }
  assert (Hout : id ∉ prev -> toggleItem id (toggleItem id prev) = prev).
  { intros Hid. unfold toggleItem at 2. rewrite bool_decide_eq_false_2 by exact Hid.
    unfold toggleItem. rewrite bool_decide_eq_true_2
      by (apply elem_of_app; right; by apply list_elem_of_singleton).
    rewrite filter_app, (filter_singleton_False _ id []) by (intros H; by apply H).
    rewrite app_nil_r. by apply filter_ne_absent. }
  assert (Hin : id ∈ prev ->
            toggleItem id (toggleItem id prev)
            = filter (fun item => item <> id) prev ++ [id]).
  { intros Hid. unfold toggleItem at 2. rewrite bool_decide_eq_true_2 by exact Hid.
    unfold toggleItem. rewrite bool_decide_eq_false_2; [reflexivity|].
    rewrite list_elem_of_filter. intros [H _]. by apply H. }
  split; [exact Hnd1|]. split; [exact Hout|]. split; [exact Hin|].
  destruct (decide (id ∈ prev)) as [Hid|Hid]; [|by rewrite Hout].
  apply NoDup_Permutation; [|exact Hnd|].
  - rewrite Hin by exact Hid. apply NoDup_app.
    split; [by apply NoDup_filter|]. split; [|apply NoDup_singleton].
    intros x Hx Hx'. apply list_elem_of_singleton in Hx'.
    apply list_elem_of_filter in Hx as [Hx _]. contradiction.
  - intros x. rewrite Hin by exact Hid.
    rewrite elem_of_app, list_elem_of_filter, list_elem_of_singleton.
    destruct (decide (x = id)) as [->|Hne]; tauto.
Qed.

Lemma toggleItem_twice_witness :
  NoDup ["1"; "2"]
  /\ toggleItem "3" (toggleItem "3" ["1"; "2"]) = ["1"; "2"]
  /\ toggleItem "1" (toggleItem "1" ["1"; "2"]) = ["2"; "1"].
Proof.
  assert (Hnd : NoDup ["1"; "2"]).
  { apply NoDup_ListNoDup. repeat (constructor; [cbn; intuition discriminate|]).
    constructor. }
  destruct (toggleItem_twice "3" ["1"; "2"] Hnd) as (_ & Hout & _).
  destruct (toggleItem_twice "1" ["1"; "2"] Hnd) as (_ & _ & Hin & _).
  split; [exact Hnd|]. split.
  - apply Hout. intros H. apply list_elem_of_In in H. cbn in H. intuition discriminate.
  - rewrite Hin; [reflexivity|]. apply list_elem_of_In. cbn. tauto.
Defined.

(** ** The score tiers and the relative times of the history view *)

(** X3: the colour and the badge variant of a score name the same tier:
    success and default from 80 on, medium and secondary from 60 to 79,
    high and outline from 40 to 59, critical and destructive below 40. *)
Theorem score_colour_and_badge_agree (score : Z) :
  (80 <= score
   /\ getScoreColor score = "text-success"
   /\ getScoreBadgeVariant score = badge_default)
  \/ (60 <= score < 80
      /\ getScoreColor score = "text-medium"
      /\ getScoreBadgeVariant score = badge_secondary)
  \/ (40 <= score < 60
      /\ getScoreColor score = "text-high"
      /\ getScoreBadgeVariant score = badge_outline)
  \/ (score < 40
      /\ getScoreColor score = "text-critical"
      /\ getScoreBadgeVariant score = badge_destructive).
Proof.
  unfold getScoreColor, getScoreBadgeVariant.
  destruct (Z.leb_spec 80 score); [left; auto|].
  destruct (Z.leb_spec 60 score); [right; left; repeat split; auto; lia|].
  destruct (Z.leb_spec 40 score); [right; right; left; repeat split; auto; lia|].
  right; right; right. auto.
Qed.

(** X4: the relative time depends on the elapsed milliseconds alone, up to
    a week: "Just now" below one minute (also for a date in the future),
    then whole minutes from 1 to 59, whole hours from 1 to 23, whole days
    from 1 to 6, each rounded down, and the locale's date from 7 days on. *)
Theorem formatRelativeTime_tiers (toLocaleDateString : Z -> string) (now date : Z) :
  let elapsed := now - date in
  let shown := formatRelativeTime toLocaleDateString now date in
  (elapsed < 60000 /\ shown = "Just now")
  \/ (60000 <= elapsed < 3600000
      /\ 1 <= elapsed / 60000 <= 59
      /\ shown = pretty (elapsed / 60000) +:+ "m ago")
  \/ (3600000 <= elapsed < 86400000
      /\ 1 <= elapsed / 3600000 <= 23
      /\ shown = pretty (elapsed / 3600000) +:+ "h ago")
  \/ (86400000 <= elapsed < 604800000
      /\ 1 <= elapsed / 86400000 <= 6
      /\ shown = pretty (elapsed / 86400000) +:+ "d ago")
  \/ (604800000 <= elapsed /\ shown = toLocaleDateString date).
Proof.
  cbv zeta. unfold formatRelativeTime. cbv zeta.
  set (e := now - date). change (1000 * 60) with 60000.
  assert (Hh : e / 60000 / 60 = e / 3600000).
  { rewrite Z.div_div by lia. reflexivity. }
  assert (Hd : e / 60000 / 60 / 24 = e / 86400000).
  { rewrite Hh, Z.div_div by lia. reflexivity. }
  rewrite Hd, Hh.
  pose proof (Z.div_mod e 60000 ltac:(lia)) as Em.
  pose proof (Z.mod_pos_bound e 60000 ltac:(lia)) as Bm.
  pose proof (Z.div_mod e 3600000 ltac:(lia)) as Eh.
  pose proof (Z.mod_pos_bound e 3600000 ltac:(lia)) as Bh.
  pose proof (Z.div_mod e 86400000 ltac:(lia)) as Ed.
  pose proof (Z.mod_pos_bound e 86400000 ltac:(lia)) as Bd.
  destruct (Z.ltb_spec (e / 60000) 1); [left; split; [lia | reflexivity]|].
  destruct (Z.ltb_spec (e / 60000) 60);
    [right; left; split; [lia | split; [lia | reflexivity]]|].
  destruct (Z.ltb_spec (e / 3600000) 24);
    [right; right; left; split; [lia | split; [lia | reflexivity]]|].
  destruct (Z.ltb_spec (e / 86400000) 7);
    [right; right; right; left; split; [lia | split; [lia | reflexivity]]|].
  right; right; right; right. split; [lia | reflexivity].
Qed.

(** ** The severity counts *)

Lemma countSeverity_cons (s : Severity) (v : Vulnerability) (vs : list Vulnerability) :
  countSeverity s (v :: vs)
  = ((if decide (severity v = s) then 1 else 0) + countSeverity s vs)%nat.
Proof.
  unfold countSeverity. rewrite filter_cons. by destruct (decide (severity v = s)).
Qed.

(** X5: the four severity counts of the result view add up to the number
    of vulnerabilities in its heading: every entry is counted once. *)
Theorem severity_counts_partition (r : ScanResult) :
  (criticalCount r + highCount r + mediumCount r + lowCount r)%nat
  = length (vulnerabilities r)
  /\ getCriticalCount r = criticalCount r
  /\ (getCriticalCount r <= getTotalVulnerabilities r)%nat.
Proof.
  unfold criticalCount, highCount, mediumCount, lowCount,
    getCriticalCount, getTotalVulnerabilities.
  assert (Hsum : forall vs,
            (countSeverity critical vs + countSeverity high vs
             + countSeverity medium vs + countSeverity low vs)%nat = length vs).
  { induction vs as [|v vs IH]; [reflexivity|].
    rewrite !countSeverity_cons. cbn [length].
    destruct (severity v);
      repeat (match goal with |- context [decide ?P] => destruct (decide P) end);
      try congruence; lia. }
  split; [apply Hsum|]. split; [reflexivity|].
  apply length_filter.
Qed.

(** ** What a completed scan shows *)

Lemma selectedVulns_cases r :
  unit_interval r ->
  (numVulns r = 1 /\ selectedVulns r = take 1 MOCK_VULNERABILITIES)
  \/ (numVulns r = 2 /\ selectedVulns r = take 2 MOCK_VULNERABILITIES)
  \/ (3 <= numVulns r <= 4 /\ selectedVulns r = MOCK_VULNERABILITIES).
Proof.
  intros Hr. pose proof (numVulns_range r Hr) as HN.
  pose proof (selectedVulns_take r Hr) as Htake.
  assert (Hc : numVulns r = 1 \/ numVulns r = 2 \/ numVulns r = 3 \/ numVulns r = 4)
    by lia.
  destruct Hc as [H|[H|[H|H]]]; rewrite H in Htake.
  - left. split; assumption.
  - right; left. split; assumption.
  - right; right. split; [lia | exact Htake].
  - right; right. split; [lia | exact Htake].
Qed.

(** X6: the result of a completed scan is never shown as free of
    vulnerabilities, and its next steps follow the drawn count N: the good
    posture advisory alone for N = 1, the high priority advisory alone for
    N = 2, and the immediate action and high priority advisories, each for
    one finding, from N = 3 on; so one or two advisories, never none and
    never all three. *)
Theorem completed_scan_next_steps (u : string) (r : Q) (now date : Z) :
  unit_interval r ->
  let res := makeResult u r now date in
  vulnerabilities res <> []
  /\ (numVulns r = 1 -> nextSteps res = [GoodPosture])
  /\ (numVulns r = 2 -> nextSteps res = [HighPriority 1])
  /\ (3 <= numVulns r -> nextSteps res = [ImmediateAction 1; HighPriority 1])
  /\ (1 <= length (nextSteps res) <= 2)%nat.
Proof.
  intros Hr res. unfold res, nextSteps, criticalCount, highCount.
  cbn [vulnerabilities overallScore makeResult].
  destruct (selectedVulns_cases r Hr) as [[HN ->]|[[HN ->]|[HN ->]]];
    (split; [discriminate|]);
    (split; [intros ?; first [reflexivity | lia]|]);
    (split; [intros ?; first [reflexivity | lia]|]);
    (split; [intros ?; first [reflexivity | lia]|]);
    vm_compute; lia.
Qed.

Lemma completed_scan_next_steps_witness :
  unit_interval (3 # 4)
  /\ nextSteps (makeResult "https://example.com" (3 # 4) 1 2)
     = [ImmediateAction 1; HighPriority 1].
Proof.
  split; [exact unit_interval_three_quarters|].
  destruct (completed_scan_next_steps "https://example.com" (3 # 4) 1 2
              unit_interval_three_quarters) as (_ & _ & _ & H3 & _).
  apply H3. discriminate.
Defined.

(** X7: the score badge of a completed scan is never the destructive one
    and its colour never the critical one: success and default for N = 1,
    medium and secondary for N = 2, high and outline from N = 3 on. *)
Theorem completed_scan_score_badge (u : string) (r : Q) (now date : Z) :
  unit_interval r ->
  let score := overallScore (makeResult u r now date) in
  (numVulns r = 1 ->
     getScoreColor score = "text-success"
     /\ getScoreBadgeVariant score = badge_default)
  /\ (numVulns r = 2 ->
     getScoreColor score = "text-medium"
     /\ getScoreBadgeVariant score = badge_secondary)
  /\ (3 <= numVulns r ->
     getScoreColor score = "text-high"
     /\ getScoreBadgeVariant score = badge_outline)
  /\ getScoreColor score <> "text-critical"
  /\ getScoreBadgeVariant score <> badge_destructive.
Proof.
  intros Hr score. unfold score. cbn [overallScore makeResult].
  destruct (selectedVulns_cases r Hr) as [[HN ->]|[[HN ->]|[HN ->]]];
    (split; [intros ?; first [split; reflexivity | lia]|]);
    (split; [intros ?; first [split; reflexivity | lia]|]);
    (split; [intros ?; first [split; reflexivity | lia]|]);
    split; discriminate.
Qed.

Lemma completed_scan_score_badge_witness :
  unit_interval (3 # 4)
  /\ getScoreBadgeVariant (overallScore (makeResult "https://example.com" (3 # 4) 1 2))
     = badge_outline.
Proof.
  split; [exact unit_interval_three_quarters|].
  destruct (completed_scan_score_badge "https://example.com" (3 # 4) 1 2
              unit_interval_three_quarters) as (_ & _ & H3 & _).
  apply H3. discriminate.
Defined.

(** X8: the "Scan Complete" toast is destructive exactly when the drawn
    count is at least 3, which is when the result holds the one critical
    entry of the catalog and the score is 55; it announces as many issues
    as the slice holds, min(N, 3). *)
Theorem scan_complete_toast_variant (u : string) (r : Q) (now date : Z) :
  unit_interval r ->
  let res := makeResult u r now date in
  (toast_variant (scanCompleteToast res) = Some variant_destructive
   <-> 3 <= numVulns r)
  /\ (toast_variant (scanCompleteToast res) = Some variant_default
      <-> numVulns r <= 2)
  /\ (3 <= numVulns r <-> criticalCount res = 1%nat)
  /\ (3 <= numVulns r <-> overallScore res = 55)
  /\ toast_description (scanCompleteToast res)
     = "Found " +:+ pretty (Z.to_nat (Z.min (numVulns r) 3)) +:+ " potential issues.".
Proof.
  intros Hr res. unfold res, scanCompleteToast, hasCritical, criticalCount.
  cbn [toast_variant toast_description vulnerabilities overallScore makeResult].
  destruct (selectedVulns_cases r Hr) as [[HN ->]|[[HN ->]|[HN ->]]];
    repeat (split;
      [split; intros H;
         first [reflexivity | lia | (vm_compute in H; discriminate H)]|]).
  - rewrite HN. reflexivity.
  - rewrite HN. reflexivity.
  - replace (Z.min (numVulns r) 3) with 3 by lia. reflexivity.
Qed.

Lemma scan_complete_toast_variant_witness :
  unit_interval (3 # 4)
  /\ toast_variant (scanCompleteToast (makeResult "https://example.com" (3 # 4) 1 2))
     = Some variant_destructive
  /\ toast_description (scanCompleteToast (makeResult "https://example.com" (3 # 4) 1 2))
     = "Found 3 potential issues.".
Proof.
  split; [exact unit_interval_three_quarters|].
  destruct (scan_complete_toast_variant "https://example.com" (3 # 4) 1 2
              unit_interval_three_quarters) as (Hv & _ & _ & _ & Hd).
  split; [apply Hv; discriminate | exact Hd].
Defined.

(** ** The trace of a scan *)


Lemma step_quiet_world env i w :
  quiet env (stepSites i) ->
  step env i w
  = (Normal tt, {| state := withProgress (progressAt i) (state w);
                   toasts := toasts w ++ [scanningToast i] |}).
Proof.
  intros Hq. unfold stepSites in Hq.
  apply quiet_cons in Hq as [H1 Hq]. apply quiet_cons in Hq as [H2 Hq].
  apply quiet_cons in Hq as [H3 _].
  unfold step. rewrite bind_run, at_site_run, H1. cbn [mret M_ret].
  rewrite bind_run, at_site_run, H2. cbn [setProgress modify].
  rewrite at_site_run, H3. reflexivity.
Qed.

Lemma for_range_quiet_world env n : forall a w,
  quiet env (loopSites a n) ->
  for_range a n (step env) w
  = (Normal tt,
     {| state := match n with
                 | O => state w
                 | S k => withProgress (progressAt (a + k)) (state w)
                 end;
        toasts := toasts w ++ (scanningToast <$> seq a n) |}).
Proof.
  induction n as [|n IH]; intros a w Hq.
  - cbn. rewrite app_nil_r. by destruct w.
  - change (loopSites a (S n)) with (stepSites a ++ loopSites (S a) n) in Hq.
    apply quiet_app in Hq as [Hq1 Hq2].
    cbn [for_range]. rewrite bind_run, (step_quiet_world _ _ _ Hq1).
    rewrite (IH _ _ Hq2). cbn [state toasts seq fmap list_fmap].
    rewrite <- app_assoc. cbn [app]. f_equal. f_equal.
    destruct n as [|k]; [by rewrite Nat.add_0_r|].
    replace (S a + k)%nat with (a + S k)%nat by lia. reflexivity.
Qed.

Lemma simulateScan_quiet_world env u w :
  quiet env scanSites ->
  simulateScan env u w
  = (Normal (resultOf u env),
     {| state := withProgress (progressAt 5) (state w);
        toasts := toasts w ++ (scanningToast <$> seq 0 (length steps)) |}).
Proof.
  intros Hq. unfold scanSites in Hq. apply quiet_app in Hq as [Hloop Hq].
  apply quiet_cons in Hq as [H1 Hq]. apply quiet_cons in Hq as [H2 Hq].
  apply quiet_cons in Hq as [H3 _].
  unfold simulateScan. rewrite bind_run, (for_range_quiet_world _ _ _ _ Hloop).
  change (length steps) with 6%nat. cbn [Nat.add].
  rewrite !bind_run, !at_site_run, H1. cbn [mret M_ret].
  rewrite !bind_run, !at_site_run, H2. cbn [mret M_ret].
  rewrite !bind_run, !at_site_run, H3. reflexivity.
Qed.

(** X10: a scan with no fault emits the six "Scanning..." toasts, one per
    step, with the labels of the steps in their order and a duration of
    800 each, leaves the progress at the value of the last step, which is
    100, touches nothing else of the state, and returns the result built
    from the three reads. *)
Theorem simulateScan_emits_six_toasts env u w :
  quiet env scanSites ->
  simulateScan env u w
  = (Normal (resultOf u env),
     {| state := withProgress (progressAt 5) (state w);
        toasts := toasts w ++ (scanningToast <$> seq 0 6) |})
  /\ toast_description <$> (scanningToast <$> seq 0 6) = steps
  /\ Forall (fun t => toast_title t = "Scanning..."
                      /\ toast_duration t = Some 800
                      /\ toast_variant t = None) (scanningToast <$> seq 0 6)
  /\ (progressAt 5 == 100)%Q.
Proof.
  intros Hq. split; [exact (simulateScan_quiet_world env u w Hq)|].
  split; [reflexivity|]. split; [repeat constructor | reflexivity].
Qed.

Lemma simulateScan_emits_six_toasts_witness :
  quiet (quietEnv (3 # 4)) scanSites
  /\ toasts (simulateScan (quietEnv (3 # 4)) "https://example.com"
               (initialWorld "https://example.com")).2
     = scanningToast <$> seq 0 6.
Proof.
  split; [apply quietEnv_quiet|].
  destruct (simulateScan_emits_six_toasts (quietEnv (3 # 4)) "https://example.com"
              (initialWorld "https://example.com") (quietEnv_quiet _ _))
    as [Hrun _].
  rewrite Hrun. reflexivity.
Defined.

(** ** The trigger from end to end *)

Lemma handleScan_quiet_world parseURL env w :
  validateUrl parseURL (url (state w)) = true ->
  quiet env trySites ->
  handleScan parseURL env w
  = (Normal tt,
     {| state := scanEnded (progressAt 5)
                   (Some (resultOf (url (state w)) env))
                   (pushHistory (resultOf (url (state w)) env)
                      (scanHistory (state w)))
                   (state w);
        toasts := toasts w ++ (scanningToast <$> seq 0 6)
                    ++ [scanCompleteToast (resultOf (url (state w)) env)] |}).
Proof.
  intros Hv Hq. rewrite (handleScan_valid _ _ _ Hv).
  unfold trySites in Hq. apply quiet_app in Hq as [Hscan Hq].
  apply quiet_cons in Hq as [H1 Hq]. apply quiet_cons in Hq as [H2 Hq].
  apply quiet_cons in Hq as [H3 _].
  unfold try_finally, try_catch, scanAndPublish.
  rewrite bind_run, (simulateScan_quiet_world _ _ _ Hscan).
  rewrite bind_run, at_site_run, H1. cbn [setCurrentResult modify].
  rewrite bind_run, at_site_run, H2. cbn [setScanHistory modify].
  rewrite at_site_run, H3. cbn. rewrite <- app_assoc. reflexivity.
Qed.

(** X11: from a valid address and with no fault, the trigger ends in
    exactly this world: the scanning flag cleared, the progress at the
    value of the last step, the new result as current result and at the
    front of the history, and as toasts the six of the steps followed by
    "Scan Complete"; the address and the tab are untouched. *)
Theorem handleScan_end_to_end parseURL env w :
  validateUrl parseURL (url (state w)) = true ->
  quiet env trySites ->
  let res := resultOf (url (state w)) env in
  let r := handleScan parseURL env w in
  r.1 = Normal tt
  /\ state r.2 = scanEnded (progressAt 5) (Some res)
                   (res :: take 9 (scanHistory (state w))) (state w)
  /\ toasts r.2 = toasts w ++ (scanningToast <$> seq 0 6) ++ [scanCompleteToast res]
  /\ result_url res = url (state w)
  /\ head (scanHistory (state r.2)) = currentResult (state r.2).
Proof.
  intros Hv Hq. cbv zeta. rewrite (handleScan_quiet_world _ _ _ Hv Hq).
  repeat split.
Qed.

Lemma handleScan_end_to_end_witness :
  validateUrl sampleParseURL "https://example.com" = true
  /\ toast_title <$> toasts (handleScan sampleParseURL (quietEnv (1 # 8))
                               (initialWorld "https://example.com")).2
     = ["Scanning..."; "Scanning..."; "Scanning..."; "Scanning...";
        "Scanning..."; "Scanning..."; "Scan Complete"]
  /\ length (scanHistory (state (handleScan sampleParseURL (quietEnv (1 # 8))
                                   (initialWorld "https://example.com")).2)) = 1%nat.
Proof.
  split; [reflexivity|].
  destruct (handleScan_end_to_end sampleParseURL (quietEnv (1 # 8))
              (initialWorld "https://example.com") eq_refl (quietEnv_quiet _ _))
    as (_ & Hs & Ht & _).
  rewrite Ht, Hs. split; reflexivity.
Defined.

Lemma take_app_take {A} (n : nat) (l k : list A) :
  take n (l ++ take n k) = take n (l ++ k).
Proof. rewrite !take_app, take_take. do 2 f_equal. lia. Qed.

Lemma pushHistory_take10 (result : ScanResult) (prev : list ScanResult) :
  pushHistory result prev = take 10 (result :: prev).
Proof. reflexivity. Qed.

Lemma clickScans_quiet parseURL envs : forall w,
  validateUrl parseURL (url (state w)) = true ->
  Forall (fun env => quiet env trySites) envs ->
  url (state (clickScans parseURL envs w)) = url (state w)
  /\ scanHistory (state (clickScans parseURL envs w))
     = match envs with
       | [] => scanHistory (state w)
       | _ => take 10 (reverse (resultOf (url (state w)) <$> envs)
                       ++ scanHistory (state w))
       end
  /\ (envs <> [] ->
      isScanning (state (clickScans parseURL envs w)) = false
      /\ currentResult (state (clickScans parseURL envs w))
         = head (scanHistory (state (clickScans parseURL envs w)))).
Proof.
  induction envs as [|env envs IH]; intros w Hv Hall.
  - split; [reflexivity|]. split; [reflexivity | congruence].
  - apply Forall_cons in Hall as [Hq Hall]. cbn [clickScans].
    rewrite (handleScan_quiet_world _ _ _ Hv Hq). cbn [snd].
    set (w1 := {| state := _; toasts := _ |}).
    destruct (IH w1 Hv Hall) as (Hu & Hh & Hflag).
    split; [exact Hu|]. split; [|intros _].
    + rewrite Hh. cbn [w1 state url scanHistory scanEnded].
      rewrite pushHistory_take10. cbn [fmap list_fmap].
      rewrite reverse_cons, <- app_assoc. cbn [app].
      destruct envs as [|env' envs']; [reflexivity|].
      apply take_app_take.
    + destruct envs as [|env' envs']; [split; reflexivity|].
      apply Hflag. discriminate.
Qed.

(** X12: after one or more scans in a row, each with no fault, the history
    is the ten newest of: the new results, newest first, then the old
    entries; its length is the number of scans plus the old length, capped
    at 10, so ten scans leave nothing of the old entries; the current
    result is the newest entry and the scanning flag is cleared. *)
Theorem clickScans_keep_ten_newest parseURL envs w :
  validateUrl parseURL (url (state w)) = true ->
  Forall (fun env => quiet env trySites) envs ->
  envs <> [] ->
  let w' := clickScans parseURL envs w in
  let results := resultOf (url (state w)) <$> envs in
  scanHistory (state w') = take 10 (reverse results ++ scanHistory (state w))
  /\ length (scanHistory (state w'))
     = min (length envs + length (scanHistory (state w))) 10
  /\ ((10 <= length envs)%nat -> scanHistory (state w') = take 10 (reverse results))
  /\ currentResult (state w') = last results
  /\ isScanning (state w') = false
  /\ url (state w') = url (state w).
Proof.
  intros Hv Hall Hne. cbv zeta.
  destruct (clickScans_quiet parseURL envs w Hv Hall) as (Hu & Hh & Hflag).
  destruct (Hflag Hne) as [Hs Hc].
  assert (Hh' : scanHistory (state (clickScans parseURL envs w))
                = take 10 (reverse (resultOf (url (state w)) <$> envs)
                           ++ scanHistory (state w))).
  { rewrite Hh. destruct envs; [congruence | reflexivity]. }
  split; [exact Hh'|]. split.
  { rewrite Hh', length_take, length_app, length_reverse, length_fmap. lia. }
  split.
  { intros Hlen. rewrite Hh', take_app.
    rewrite length_reverse, length_fmap.
    replace (10 - length envs)%nat with 0%nat by lia.
    cbn [take]. by rewrite app_nil_r. }
  split; [|split; [exact Hs | exact Hu]].
  rewrite Hc, Hh'.
  destruct (resultOf (url (state w)) <$> envs) as [|res results] eqn:Hres using rev_ind.
  { destruct envs; [congruence | discriminate]. }
  rewrite reverse_app, last_snoc. reflexivity.
Qed.

Lemma clickScans_keep_ten_newest_witness :
  validateUrl sampleParseURL "https://example.com" = true
  /\ overallScore <$> scanHistory (state
       (clickScans sampleParseURL [quietEnv (1 # 8); quietEnv (3 # 8)]
          (initialWorld "https://example.com")))
     = [70; 85].
Proof.
  split; [reflexivity|].
  destruct (clickScans_keep_ten_newest sampleParseURL
              [quietEnv (1 # 8); quietEnv (3 # 8)]
              (initialWorld "https://example.com") eq_refl) as [Hh _].
  - repeat constructor; apply quietEnv_quiet.
  - discriminate.
  - rewrite Hh. reflexivity.
Defined.

Lemma handleScan_state_after parseURL env w :
  url (state (handleScan parseURL env w).2) = url (state w)
  /\ (validateUrl parseURL (url (state w)) = true ->
      isScanning (state (handleScan parseURL env w).2) = false)
  /\ (validateUrl parseURL (url (state w)) = false ->
      state (handleScan parseURL env w).2 = state w).
Proof.
  destruct (validateUrl parseURL (url (state w))) eqn:Hv.
  - rewrite (handleScan_valid _ _ _ Hv).
    set (w0 := {| state := _; toasts := toasts w |}).
    unfold try_finally, try_catch.
    destruct (scanAndPublish_run env (url (state w)) w0) as (_ & Hu & _).
    destruct (scanAndPublish env (url (state w)) w0) as [[[]|e] w1];
      cbn [fst snd] in Hu.
    + cbn. split; [exact Hu|]. split; [reflexivity | discriminate].
    + rewrite at_site_run. destruct (fault env FailedToast); cbn;
        (split; [exact Hu|]; split; [reflexivity | discriminate]).
  - rewrite (handleScan_invalid _ _ _ Hv). cbn.
    split; [reflexivity|]. split; [discriminate | reflexivity].
Qed.

(** X13: the Start Scan button, disabled while a scan runs or the address
    is empty, is never left disabled by the trigger: if it was enabled when
    the trigger started, it is enabled when the trigger finishes, whatever
    the address and whatever faults were raised. *)
Theorem start_button_enabled_again parseURL env w :
  startDisabled (state w) = false ->
  startDisabled (state (handleScan parseURL env w).2) = false.
Proof.
  intros Hen. unfold startDisabled in *.
  apply orb_false_iff in Hen as [Hflag Hurl].
  destruct (handleScan_state_after parseURL env w) as (Hu & Hvalid & Hinvalid).
  destruct (validateUrl parseURL (url (state w))) eqn:Hv.
  - by rewrite Hu, (Hvalid eq_refl), Hurl.
  - by rewrite (Hinvalid eq_refl), Hflag, Hurl.
Qed.

Lemma start_button_enabled_again_witness :
  startDisabled (initialState "https://example.com") = false
  /\ startDisabled (state (handleScan sampleParseURL (faultyEnv (3 # 4) CallRandom)
                             (initialWorld "https://example.com")).2) = false.
Proof.
  split; [reflexivity|].
  exact (start_button_enabled_again sampleParseURL (faultyEnv (3 # 4) CallRandom)
           (initialWorld "https://example.com") eq_refl).
Defined.

(** ** The trace of a scan that fails *)

Lemma for_range_app (body : nat -> M unit) (n m : nat) : forall a w,
  for_range a (n + m) body w
  = (for_range a n body ≫= fun _ => for_range (a + n) m body) w.
Proof.
  induction n as [|n IH]; intros a w.
  - cbn [Nat.add for_range]. rewrite bind_run. cbn [mret M_ret].
    by rewrite Nat.add_0_r.
  - cbn [Nat.add for_range]. rewrite !bind_run.
    destruct (body a w) as [[[]|e] w1]; [|reflexivity].
    rewrite IH, bind_run. by replace (S a + n)%nat with (a + S n)%nat by lia.
Qed.

Lemma step_fault_world env i w :
  ~ quiet env (stepSites i) ->
  exists e w',
    step env i w = (Throw e, w')
    /\ toasts w' = toasts w
    /\ sameResults w w'
    /\ (progress (state w') = progress (state w)
        \/ progress (state w') = progressAt i).
Proof.
  intros Hn. unfold step.
  rewrite bind_run, at_site_run.
  destruct (fault env (StepTimer i)) as [e|] eqn:E1.
  { exists e, w. repeat split. by left. }
  cbn [mret M_ret]. rewrite bind_run, at_site_run.
  destruct (fault env (StepProgress i)) as [e|] eqn:E2.
  { exists e, w. repeat split. by left. }
  cbn [setProgress modify]. rewrite at_site_run.
  destruct (fault env (StepToast i)) as [e|] eqn:E3.
  { eexists e, _. split; [reflexivity|]. repeat split. by right. }
  exfalso. apply Hn. unfold stepSites. quiet_tac.
Qed.

(** X14: when the first fault of a scan is raised in step [i] and the toast
    of the handler goes through, the trigger completes normally and the
    toasts are those of the [i] steps that went through followed by "Scan
    Failed"; no result is published, the history is as before, the flag is
    cleared, and the progress stays where step [i - 1] or step [i] put it
    (at 0 when the very first step fails before its progress update). *)
Theorem handleScan_fault_trace parseURL env w (i : nat) :
  validateUrl parseURL (url (state w)) = true ->
  (i < length steps)%nat ->
  quiet env (loopSites 0 i) ->
  ~ quiet env (stepSites i) ->
  fault env FailedToast = None ->
  let r := handleScan parseURL env w in
  r.1 = Normal tt
  /\ toasts r.2 = toasts w ++ (scanningToast <$> seq 0 i) ++ [scanFailedToast]
  /\ isScanning (state r.2) = false
  /\ currentResult (state r.2) = None
  /\ scanHistory (state r.2) = scanHistory (state w)
  /\ url (state r.2) = url (state w)
  /\ (progress (state r.2) = match i with O => 0%Q | S k => progressAt k end
      \/ progress (state r.2) = progressAt i).
Proof.
  intros Hv Hi Hpre Hn Hf. cbv zeta. rewrite (handleScan_valid _ _ _ Hv).
  set (w0 := {| state := _; toasts := toasts w |}).
  unfold try_finally, try_catch, scanAndPublish, simulateScan.
  rewrite !bind_run.
  replace (length steps) with (i + S (length steps - S i))%nat by lia.
  rewrite for_range_app, bind_run, (for_range_quiet_world _ _ _ _ Hpre).
  set (w1 := {| state := _; toasts := toasts w0 ++ _ |}).
  cbn [for_range Nat.add]. rewrite bind_run.
  destruct (step_fault_world env i w1 Hn) as (e & w2 & -> & Ht & Hs & Hp).
  rewrite at_site_run, Hf. cbn.
  destruct Hs as (Hu & _ & Hc & Hh & _).
  rewrite Ht, Hc, Hh, Hu.
  assert (Hw1 : progress (state w1) = match i with O => 0%Q | S k => progressAt k end).
  { unfold w1. destruct i; reflexivity. }
  split; [reflexivity|]. split.
  { unfold w1, w0. cbn [toasts]. by rewrite <- app_assoc. }
  split; [reflexivity|].
  split; [unfold w1, w0; by destruct i|].
  split; [unfold w1, w0; by destruct i|].
  split; [unfold w1, w0; by destruct i|].
  destruct Hp as [Hp|Hp]; [left; by rewrite Hp | right; exact Hp].
Qed.

Lemma handleScan_fault_trace_witness :
  validateUrl sampleParseURL "https://example.com" = true
  /\ toast_description <$> toasts
       (handleScan sampleParseURL (faultyEnv (3 # 4) (StepToast 2))
          (initialWorld "https://example.com")).2
     = ["Checking SSL certificate..."; "Analyzing security headers...";
        "An error occurred during the security scan."].
Proof.
  split; [reflexivity|].
  destruct (handleScan_fault_trace sampleParseURL (faultyEnv (3 # 4) (StepToast 2))
              (initialWorld "https://example.com") 2 eq_refl) as (_ & Ht & _).
  - cbn. lia.
  - repeat constructor.
  - intros Hq. apply quiet_cons in Hq as [_ Hq]. apply quiet_cons in Hq as [_ Hq].
    apply quiet_cons in Hq as [Hq _]. discriminate Hq.
  - reflexivity.
  - rewrite Ht. reflexivity.
Defined.

(** ** Viewing a past scan *)

(** X15: viewing a scan of the history makes it the current result and
    highlights its row without touching the history or the toasts; the
    highlight goes by the id alone, so it falls on every row whose result
    was built at the same [Date.now()], and on the viewed row only when the
    ids of the history are distinct. *)
Theorem handleViewScan_highlights (scan : ScanResult)
    (view : option ScanResult * World) :
  let view' := handleViewScan scan view in
  currentResult (state view'.2) = Some scan
  /\ scanHistory (state view'.2) = scanHistory (state view.2)
  /\ toasts view'.2 = toasts view.2
  /\ rowHighlighted view'.1 scan = true
  /\ (forall other, rowHighlighted view'.1 other = true
                    <-> result_id other = result_id scan)
  /\ (forall u r now date u' r' now' date',
        rowHighlighted (Some (makeResult u r now date))
          (makeResult u' r' now' date') = true <-> now = now')
  /\ (NoDup (result_id <$> scanHistory (state view.2)) ->
      scan ∈ scanHistory (state view.2) ->
      forall other, other ∈ scanHistory (state view.2) ->
        rowHighlighted view'.1 other = true -> other = scan).
Proof.
  cbv zeta. cbn [handleViewScan fst snd rowHighlighted].
  split; [reflexivity|]. split; [reflexivity|]. split; [reflexivity|].
  split; [apply String.eqb_refl|].
  split; [intros other; rewrite String.eqb_eq; split; congruence|].
  split.
  { intros. rewrite String.eqb_eq. cbn [result_id makeResult].
    split; [apply (inj pretty) | congruence]. }
  intros Hnd Hin other Hother Heq. apply String.eqb_eq in Heq.
  apply list_elem_of_lookup in Hin as [i Hi].
  apply list_elem_of_lookup in Hother as [j Hj].
  assert (i = j); [|congruence].
  eapply NoDup_lookup; [exact Hnd | |].
  - rewrite list_lookup_fmap, Hi. reflexivity.
  - rewrite list_lookup_fmap, Hj. cbn. congruence.
Qed.

(** ** The quick stats *)

Lemma totalSeverity_sum (s : Severity) (h : list ScanResult) :
  totalSeverity s h
  = sum_list ((fun scan => countSeverity s (vulnerabilities scan)) <$> h).
Proof.
  unfold totalSeverity.
  assert (Hgen : forall acc,
            foldl (fun acc scan => (acc + countSeverity s (vulnerabilities scan))%nat)
              acc h
            = (acc + sum_list ((fun scan => countSeverity s (vulnerabilities scan)) <$> h))%nat).
  { induction h as [|scan h IH]; intros acc; cbn [foldl fmap list_fmap sum_list sum_list_with].
    - lia.
    - rewrite IH. cbn. lia. }
  by rewrite Hgen.
Qed.

Lemma catalog_prefix_cases (vs : list Vulnerability) :
  vs `prefix_of` MOCK_VULNERABILITIES ->
  vs = [] \/ vs = take 1 MOCK_VULNERABILITIES
  \/ vs = take 2 MOCK_VULNERABILITIES \/ vs = MOCK_VULNERABILITIES.
Proof.
  intros Hp. pose proof (prefix_length _ _ Hp) as Hlen.
  destruct Hp as [k Hk].
  assert (Hvs : vs = take (length vs) MOCK_VULNERABILITIES)
    by (rewrite Hk; symmetry; apply take_app_length).
  change (length MOCK_VULNERABILITIES) with 3%nat in Hlen.
  destruct (length vs) as [|[|[|[|n]]]]; try lia; rewrite Hvs; auto.
Qed.

Lemma catalog_prefix_counts (vs : list Vulnerability) :
  vs `prefix_of` MOCK_VULNERABILITIES ->
  countSeverity critical vs
  = (if existsb (fun v => bool_decide (severity v = critical)) vs then 1 else 0)%nat
  /\ countSeverity high vs = (if (2 <=? length vs)%nat then 1 else 0)%nat
  /\ (existsb (fun v => bool_decide (severity v = critical)) vs = true ->
      (2 <= length vs)%nat).
Proof.
  intros Hp. destruct (catalog_prefix_cases vs Hp) as [-> | [-> | [-> | ->]]];
    (split; [reflexivity|]); (split; [reflexivity|]);
    first [discriminate | intros _; cbn; lia].
Qed.

(** X16: in a history whose results are slices of the catalog, as the
    trigger builds them, the critical total of the quick stats is the
    number of scans that found the critical entry, the high total the
    number of scans with at least two findings, and so the critical total
    is at most the high total, which is at most the number of scans. *)
Theorem quick_stats_count_scans (h : list ScanResult) :
  Forall (fun scan => vulnerabilities scan `prefix_of` MOCK_VULNERABILITIES) h ->
  totalSeverity critical h
  = length (filter (fun scan => hasCritical scan = true) h)
  /\ totalSeverity high h
     = length (filter (fun scan => (2 <= length (vulnerabilities scan))%nat) h)
  /\ (totalSeverity critical h <= totalSeverity high h <= length h)%nat.
Proof.
  intros Hall. rewrite !totalSeverity_sum.
  induction Hall as [|scan h Hscan _ (IHc & IHh & IHle)]; [repeat split; cbn; lia|].
  cbn [fmap list_fmap sum_list sum_list_with length].
  destruct (catalog_prefix_counts _ Hscan) as (Hc & Hh & Himp).
  rewrite !filter_cons, Hc, Hh.
  destruct (decide (hasCritical scan = true)) as [Hd|Hd]; unfold hasCritical in Hd;
    destruct (decide (2 <= length (vulnerabilities scan))%nat) as [Hl|Hl];
    destruct (existsb _ (vulnerabilities scan)) eqn:Ecrit; try congruence;
    try (specialize (Himp eq_refl));
    destruct (Nat.leb_spec 2 (length (vulnerabilities scan)));
    cbn [length id]; lia.
Qed.

Lemma quick_stats_count_scans_witness :
  totalSeverity critical twoScansOfOneSite = 0%nat
  /\ totalSeverity high twoScansOfOneSite = 1%nat.
Proof.
  destruct (quick_stats_count_scans twoScansOfOneSite) as (Hc & Hh & _).
  - repeat constructor; apply prefix_take.
  - rewrite Hc, Hh. split; reflexivity.
Defined.

(** ** The rollups at their edges *)

Lemma totalScore_bounds (lo hi : Z) (h : list ScanResult) :
  Forall (fun scan => lo <= overallScore scan <= hi) h ->
  Z.of_nat (length h) * lo <= totalScore h <= Z.of_nat (length h) * hi.
Proof.
  unfold totalScore.
  induction 1 as [|scan h Hscan _ IH]; cbn [length fmap list_fmap foldr]; lia.
Qed.

(** X17: the average score of a non-empty history lies between the lowest
    and the highest of its scores: the rounding never leaves their range.
    For a history the trigger built it is between 55 and 85. *)
Theorem avgScore_within_scores (lo hi : Z) (h : list ScanResult) :
  h <> [] ->
  Forall (fun scan => lo <= overallScore scan <= hi) h ->
  lo <= avgScore h <= hi.
Proof.
  intros Hne Hall.
  pose proof (totalScore_bounds lo hi h Hall) as Hsum.
  assert (Hn : 0 < Z.of_nat (length h)) by (destruct h; [congruence | cbn; lia]).
  unfold avgScore. rewrite sumScores_totalScore, Math_round_quotient by exact Hn.
  set (n := Z.of_nat (length h)) in *. set (t := totalScore h) in *.
  split.
  - apply Z.div_le_lower_bound; nia.
  - apply Z.lt_succ_r, Z.div_lt_upper_bound; nia.
Qed.

Lemma avgScore_within_scores_witness :
  twoScansOfOneSite <> []
  /\ 70 <= avgScore twoScansOfOneSite <= 85.
Proof.
  assert (Hne : twoScansOfOneSite <> []) by discriminate.
  split; [exact Hne|].
  apply (avgScore_within_scores 70 85 twoScansOfOneSite Hne).
  apply Forall_forall. intros scan Hin. apply list_elem_of_In in Hin.
  destruct Hin as [<-|[<-|[]]]; vm_compute; split; discriminate.
Defined.

Lemma hostnames_unparsed parseURL (h : list ScanResult) :
  Exists (fun scan => parseURL (result_url scan) = None) h ->
  hostnames parseURL h = Throw TypeError.
Proof.
  unfold hostnames. induction h as [|scan h IH]; intros Hex.
  - by apply Exists_nil in Hex.
  - cbn [mapM].
    destruct (parseURL (result_url scan)) as [u|] eqn:Hu.
    + apply Exists_cons in Hex as [Hex|Hex]; [congruence|].
      rewrite (IH Hex). unfold URL_new. rewrite Hu. reflexivity.
    + unfold URL_new. rewrite Hu. reflexivity.
Qed.

(** X18: the count of distinct sites throws a [TypeError] exactly when one
    of the stored addresses does not parse; otherwise it is a number, at
    most the length of the history, and at least 1 when the history is not
    empty. *)
Theorem uniqueSites_throws_or_counts parseURL (h : list ScanResult) :
  (uniqueSites parseURL h = Throw TypeError
   <-> Exists (fun scan => parseURL (result_url scan) = None) h)
  /\ (Forall (fun scan => is_Some (parseURL (result_url scan))) h ->
      exists n, uniqueSites parseURL h = Normal n
                /\ (n <= length h)%nat
                /\ (h <> [] -> (1 <= n)%nat)).
Proof.
  assert (Hok : Forall (fun scan => is_Some (parseURL (result_url scan))) h ->
            exists n, uniqueSites parseURL h = Normal n
                      /\ (n <= length h)%nat
                      /\ (h <> [] -> (1 <= n)%nat)).
  { intros Hall.
    destruct (hostnames_parsed parseURL h Hall) as (hosts & Hhosts & Hall2).
    exists (Set_size (Set_new hosts)).
    destruct (Set_new_spec hosts) as [Hnd Hel].
    pose proof (Forall2_length _ _ _ Hall2) as Hlen.
    split; [unfold uniqueSites; by rewrite Hhosts|]. split.
    - unfold Set_size. rewrite Hlen.
      apply submseteq_length, NoDup_submseteq; [exact Hnd|].
      intros y. apply Hel.
    - intros Hne. unfold Set_size.
      destruct hosts as [|host hosts]; [destruct h; [congruence | discriminate]|].
      assert (Hin : host ∈ Set_new (host :: hosts)) by (apply Hel; left).
      destruct (Set_new (host :: hosts)); [by apply elem_of_nil in Hin | cbn; lia]. }
  split; [|exact Hok]. split.
  - intros Hthrow.
    destruct (decide (Forall (fun scan => is_Some (parseURL (result_url scan))) h))
      as [Hall|Hnot].
    + destruct (Hok Hall) as (n & Hn & _). congruence.
    + apply not_Forall_Exists in Hnot; [|solve_decision].
      eapply Exists_impl; [exact Hnot|]. intros scan Hscan. cbn in Hscan.
      destruct (parseURL (result_url scan)); [|reflexivity].
      exfalso. apply Hscan. eauto.
  - intros Hex. unfold uniqueSites. by rewrite (hostnames_unparsed _ _ Hex).
Qed.

(** ** The validator at its edges *)

(** X19: the validator compares the prefix letter by letter: whatever the
    parser of the platform accepts, an address with an upper-case scheme,
    or with a blank before the scheme, or the empty address is invalid, and
    a valid address starts with "http" and has at least 7 characters. *)
Theorem validateUrl_prefix_is_literal (parseURL : string -> option URL) :
  (forall u, validateUrl parseURL u = true ->
     (exists rest, u = "http" +:+ rest) /\ (7 <= String.length u)%nat)
  /\ (forall rest, validateUrl parseURL ("HTTP://" +:+ rest) = false)
  /\ (forall rest, validateUrl parseURL ("HTTPS://" +:+ rest) = false)
  /\ (forall rest, validateUrl parseURL ("Https://" +:+ rest) = false)
  /\ (forall rest, validateUrl parseURL (" https://" +:+ rest) = false)
  /\ validateUrl parseURL "" = false.
Proof.
  split; [|repeat split; intros; rewrite validateUrl_unfold;
            by destruct (parseURL _)].
  intros u Hv. rewrite validateUrl_unfold in Hv.
  destruct (parseURL u); [|discriminate].
  apply orb_true_iff in Hv as [Hv|Hv]; apply startsWith_spec in Hv as [rest ->].
  - split; [by exists ("://" +:+ rest) | simpl; lia].
  - split; [by exists ("s://" +:+ rest) | simpl; lia].
Qed.

(** ** The severity badges *)

(** X20: the four severities get four different badge colours, while the
    icon tells only three groups apart: high and medium share the warning
    triangle. *)
Theorem severity_colours_differ (s s' : Severity) :
  (getSeverityColor s = getSeverityColor s' <-> s = s')
  /\ (getSeverityIcon s = getSeverityIcon s' <->
      s = s' \/ (s = high /\ s' = medium) \/ (s = medium /\ s' = high)).
Proof.
  split; split.
  - destruct s, s'; first [reflexivity | discriminate].
  - by intros ->.
  - destruct s, s'; intros H; first [discriminate H | auto].
  - intros [->|[[-> ->]|[-> ->]]]; reflexivity.
Qed.

(** ** The history the trigger builds *)

Lemma resultOf_storedByTrigger parseURL env u :
  unit_interval (random env) ->
  validateUrl parseURL u = true ->
  storedByTrigger parseURL (resultOf u env).
Proof.
  intros Hr Hv. unfold storedByTrigger, resultOf.
  cbn [result_url vulnerabilities overallScore makeResult].
  rewrite validateUrl_unfold in Hv.
  split; [destruct (parseURL u); [eauto | discriminate]|].
  split; [rewrite (selectedVulns_take _ Hr); apply prefix_take|].
  split; [|reflexivity].
  pose proof (selectedVulns_length _ Hr) as Hlen.
  pose proof (numVulns_range _ Hr) as HN.
  intros Hnil. rewrite Hnil in Hlen. cbn in Hlen. lia.
Qed.

(** X21: every run of the trigger, faulting or not, keeps the history
    within ten entries, each of them a result whose address parsed, whose
    vulnerabilities are a non-empty slice of the catalog and whose score is
    the one of their number; so the rollups over the history never throw,
    the "no vulnerabilities" notice is never due, and every stored score is
    85, 70 or 55. *)
Theorem handleScan_keeps_history_well_formed parseURL env w :
  unit_interval (random env) ->
  (length (scanHistory (state w)) <= 10)%nat ->
  Forall (storedByTrigger parseURL) (scanHistory (state w)) ->
  let h := scanHistory (state (handleScan parseURL env w).2) in
  (length h <= 10)%nat
  /\ Forall (storedByTrigger parseURL) h
  /\ (exists n, uniqueSites parseURL h = Normal n)
  /\ Forall (fun scan => overallScore scan = 85 \/ overallScore scan = 70
                         \/ overallScore scan = 55) h.
Proof.
  intros Hr Hlen Hall. cbv zeta.
  assert (Hkept : (length (scanHistory (state (handleScan parseURL env w).2)) <= 10)%nat
                  /\ Forall (storedByTrigger parseURL)
                       (scanHistory (state (handleScan parseURL env w).2))).
  { destruct (handleScan_history parseURL env w) as [->|[Hv ->]]; [by split|].
    split; [rewrite pushHistory_length; lia|].
    rewrite pushHistory_take. constructor; [|by apply Forall_take].
    by apply resultOf_storedByTrigger. }
  destruct Hkept as [Hlen' Hall'].
  split; [exact Hlen'|]. split; [exact Hall'|]. split.
  - assert (Hparse : Forall (fun scan => is_Some (parseURL (result_url scan)))
               (scanHistory (state (handleScan parseURL env w).2))).
    { eapply Forall_impl; [exact Hall'|]. by intros scan [? _]. }
    destruct (hostnames_parsed parseURL _ Hparse) as (hosts & Hhosts & _).
    eexists. unfold uniqueSites. by rewrite Hhosts.
  - eapply Forall_impl; [exact Hall'|].
    intros scan (_ & Hp & Hne & ->).
    destruct (catalog_prefix_cases _ Hp) as [E|[E|[E|E]]]; rewrite E in *;
      [congruence | auto..].
Qed.

Lemma handleScan_keeps_history_well_formed_witness :
  unit_interval (3 # 4)
  /\ Forall (fun scan => overallScore scan = 85 \/ overallScore scan = 70
                         \/ overallScore scan = 55)
       (scanHistory (state (handleScan sampleParseURL (quietEnv (3 # 4))
                              (initialWorld "https://example.com")).2)).
Proof.
  split; [exact unit_interval_three_quarters|].
  destruct (handleScan_keeps_history_well_formed sampleParseURL (quietEnv (3 # 4))
              (initialWorld "https://example.com") unit_interval_three_quarters)
    as (_ & _ & _ & Hscores).
  - cbn. lia.
  - constructor.
  - exact Hscores.
Defined.
